(** * Temporal smoothing of face-analysis results

    A shallow embedding of [utils.ts] (the history buffer, the three
    aggregators, the emotion-label table) and of [hooks/useFaceDetection.ts]
    (the detection loop and the controls that start and stop it).

    Conventions of the embedding:
    - a JavaScript array is a [list]; a function that mutates its array
      argument returns the new contents (explicit state passing);
    - a JavaScript [number] that holds a measurement is an IEEE 754 binary64
      value, Rocq's primitive [float], with the operations of the processor;
      counts, lengths and limits are integers ([Z]), which a number holds
      exactly below 2^53, far above the length an array can have;
    - a property that the loop reads with [??] holds a number, [null] or
      [undefined]; one that it tests with [typeof ... === 'number'] or for
      truth is an [option];
    - a [Map] is an association list in insertion order, the order in which
      [Map.prototype.forEach] visits its entries;
    - an object literal read with [obj[key]] is a finite map of its own
      properties in front of [Object.prototype]. *)

From Stdlib Require Import ZArith QArith Qround Lia DecimalString Floats.
From stdpp Require Import base decidable option list sorting strings gmap.

Set Warnings "-inexact-float".

Local Open Scope Z_scope.

(** ** JavaScript values used by the program *)

Module Js.

(** A number: a binary64 value. [+], [-], [*], [/], [<] and [<=] on numbers
    are the primitive operations, which round to nearest, ties to even. *)
Definition number : Type := float.
Bind Scope float_scope with number.

(** A property declared as a number that can hold [null] or [undefined] at
    run time. *)
Inductive nullable : Type :=
  | Num (x : number)
  | Null
  | Undefined.

(** The conversion [+] applies to its operands: [null] is [+0], [undefined]
    is [NaN]. *)
Definition toNumber (x : nullable) : number :=
  match x with
  | Num v => v
  | Null => 0%float
  | Undefined => nan
  end.

(** The exact value of a finite number, as a fraction in lowest terms. *)
Definition toQ (x : number) : option Q :=
  match Prim2SF x with
  | S754_zero _ => Some 0%Q
  | S754_finite s m e =>
      Some (Qred (inject_Z (if s then Z.neg m else Z.pos m) * 2 ^ e))%Q
  | S754_infinity _ | S754_nan => None
  end.

(** The number nearest to an integer, as a count or a length is when it
    meets a measurement. *)
Definition ofZ (z : Z) : number := SF2Prim (binary_normalize prec emax z 0 false).

(** [Math.round]: the integer nearest to the argument, a half going up. An
    argument that rounds to zero keeps its sign; [NaN] and the infinities
    are returned as they are. *)
Definition round (x : number) : number :=
  match toQ x with
  | Some q =>
      let z := Qfloor (q + (1 # 2)) in
      if z =? 0 then (if get_sign x then neg_zero else zero) else ofZ z
  | None => x
  end.

(** What [obj[key]] can yield on an object literal whose own properties are
    strings: a string, or the member of [Object.prototype] of that name
    (a function object; for [__proto__] the prototype object itself). *)
Inductive value : Type :=
  | Str (s : string)
  | Inherited (key : string).

(** The property names of [Object.prototype]. *)
Definition Object_prototype : list string :=
  [ "constructor"; "hasOwnProperty"; "isPrototypeOf"; "propertyIsEnumerable";
    "toLocaleString"; "toString"; "valueOf"; "__proto__";
    "__defineGetter__"; "__defineSetter__"; "__lookupGetter__";
    "__lookupSetter__" ]%string.

(** [obj[key]]: an own property first, then the prototype. *)
Definition get (own : gmap string string) (key : string) : option value :=
  match own !! key with
  | Some s => Some (Str s)
  | None =>
      if bool_decide (key ∈ Object_prototype) then Some (Inherited key) else None
  end.

(** Truthiness: the empty string is falsy, objects and other strings are not. *)
Definition truthy (v : value) : bool :=
  match v with
  | Str s => negb (String.eqb s EmptyString)
  | Inherited _ => true
  end.

(** [Map.prototype.get] and [Map.prototype.set] on string keys: [set] on a
    present key keeps the entry's place, on a new key appends. *)
Fixpoint Map_get {V : Type} (m : list (string * V)) (k : string) : option V :=
  match m with
  | [] => None
  | (k', v) :: m' => if String.eqb k' k then Some v else Map_get m' k
  end.

Fixpoint Map_set {V : Type} (m : list (string * V)) (k : string) (v : V) : list (string * V) :=
  match m with
  | [] => [(k, v)]
  | (k', v') :: m' =>
      if String.eqb k' k then (k', v) :: m' else (k', v') :: Map_set m' k v
  end.

(** [Array.prototype.sort] with a comparator: a stable sort (ECMAScript 2019),
    here by insertion. A positive [cmp x y] puts [y] in front of [x]; any
    other result, [NaN] included (which [sort] reads as [+0]), keeps [x] in
    front of [y]. For the comparator of the detection loop on scores that
    are numbers the result is a permutation whose first element is the first
    of the largest ones ([sort_Permutation], [head_sort_first_max]). *)
Fixpoint insert {A : Type} (cmp : A -> A -> number) (x : A) (l : list A) : list A :=
  match l with
  | [] => [x]
  | y :: l' => if (0 <? cmp x y)%float then y :: insert cmp x l' else x :: y :: l'
  end.

Definition sort {A : Type} (cmp : A -> A -> number) (l : list A) : list A :=
  fold_right (insert cmp) [] l.

End Js.

(** ** utils.ts *)

Module Utils.
Import Js.

(** [types.ts]. An emotion's [score] is declared a number; the loop stores
    there what the detector gave, which can be [null] or [undefined]. *)
Record EmotionData : Type := { name : string; score : nullable }.
Record GenderData : Type := { gender : string; gscore : number }.
Record HistoryBuffers : Type :=
  { emotion : list EmotionData; hgender : list GenderData; age : list number }.

(** The object literal of [translateEmotionName]. *)
Definition map : gmap string string :=
  list_to_map
    [ ("neutral", "平静"); ("happy", "高兴"); ("sad", "伤心"); ("angry", "生气");
      ("surprise", "惊讶"); ("fear", "恐惧"); ("disgust", "厌恶");
      ("contempt", "轻蔑") ]%string.

(** [return map[name] || name;] *)
Definition translateEmotionName (name : string) : value :=
  match get map name with
  | Some v => if truthy v then v else Str name
  | None => Str name
  end.

(** [arr.push(item); if (arr.length > limit) arr.shift();] *)
Definition pushWithLimit {T : Type} (arr : list T) (item : T) (limit : Z) : list T :=
  let arr := arr ++ [item] in
  if Z.of_nat (length arr) >? limit then tail arr else arr.

(** An entry of the counters: [{ count, total }]. *)
Record Stats : Type := { count : Z; total : number }.

(** One turn of the counting loop:
    [prev = counter.get(k) || {count: 0, total: 0};
     counter.set(k, {count: prev.count + 1, total: prev.total + s})]. *)
Definition tally (counter : list (string * Stats)) (k : string) (s : number) : list (string * Stats) :=
  let prev := default {| count := 0; total := 0%float |} (Map_get counter k) in
  Map_set counter k {| count := count prev + 1; total := (total prev + s)%float |}.

(** The running best of [getSmoothedEmotion]: [bestName, bestCount, bestAvg]. *)
Record BestEmotion : Type :=
  { bestName : option string; bestCount : Z; bestAvg : number }.

(** The callback of [counter.forEach]:
    [avg = v.total / v.count;
     if (v.count > bestCount || (v.count === bestCount && avg > bestAvg)) ...]. *)
Definition emotionVisit (b : BestEmotion) (kv : string * Stats) : BestEmotion :=
  let (k, v) := kv in
  let avg := (total v / ofZ (count v))%float in
  if (count v >? bestCount b) || ((count v =? bestCount b) && (bestAvg b <? avg)%float)
  then {| bestName := Some k; bestCount := count v; bestAvg := avg |}
  else b.

Definition getSmoothedEmotion (emotionHistory : list EmotionData) : option EmotionData :=
  if (length emotionHistory =? 0)%nat then None else
  let counter :=
    fold_left (fun c e => tally c (name e) (toNumber (score e))) emotionHistory [] in
  let best :=
    fold_left emotionVisit counter
      {| bestName := None; bestCount := -1; bestAvg := (-1)%float |} in
  match bestName best with
  | Some n => Some {| name := n; score := Num (round (bestAvg best * 100)%float) |}
  | None => None
  end.

(** The running best of [getSmoothedGender]: [bestGender, bestCount]. *)
Definition genderVisit (b : option string * Z) (kv : string * Stats) : option string * Z :=
  let (k, v) := kv in
  if count v >? snd b then (Some k, count v) else b.

(** The result of [getSmoothedGender]: [{ gender, score }], either of them
    possibly [null]. *)
Record SmoothedGender : Type :=
  { sgender : option string; sscore : option number }.

Definition getSmoothedGender (genderHistory : list GenderData) : SmoothedGender :=
  if (length genderHistory =? 0)%nat then {| sgender := None; sscore := None |} else
  let counter := fold_left (fun c g => tally c (gender g) (gscore g)) genderHistory [] in
  let bestGender := fst (fold_left genderVisit counter (None, -1)) in
  (* [bestGender ? counter.get(bestGender) : undefined]: null and the empty
     string are both falsy *)
  let stats :=
    match bestGender with
    | Some g => if truthy (Str g) then Map_get counter g else None
    | None => None
    end in
  let avg :=
    match stats with
    | Some st => Some (round ((total st / ofZ (count st)) * 100)%float)
    | None => None
    end in
  {| sgender := bestGender; sscore := avg |}.

(** [sum = ageHistory.reduce((a, b) => a + b, 0);
     return Math.round((sum / ageHistory.length) * 10) / 10;] *)
Definition getSmoothedAge (ageHistory : list number) : option number :=
  if (length ageHistory =? 0)%nat then None else
  let sum := fold_left PrimFloat.add ageHistory 0%float in
  Some (round ((sum / ofZ (Z.of_nat (length ageHistory))) * 10)%float / 10)%float.

Definition createHistoryBuffers : HistoryBuffers :=
  {| emotion := []; hgender := []; age := [] |}.

End Utils.

(** ** hooks/useFaceDetection.ts: the detection loop *)

Module Hook.
Import Js Utils.

(** [SmoothConfig] of [types.ts], and the hook's default. *)
Record SmoothConfig : Type := { windowSize : Z; minConfidence : number }.

Definition DEFAULT_CONFIG : SmoothConfig :=
  {| windowSize := 1; minConfidence := 0.3%float |}.

(** One entry of a face's [emotion] array: [{ score, emotion }]. *)
Record Candidate : Type := { cscore : nullable; cemotion : string }.

(** The fields of a detected face that the loop reads. A field the loop
    tests is [None] when the test fails: [Array.isArray] for [emotion],
    truth for [box], [typeof ... === 'number'] for the numeric ones. A
    [gender] is [None] when the face has none; the empty string, which the
    loop's test for truth rejects as well, is [Some] of it. The fields the
    loop reads with [?? 0] are [nullable]. *)
Record FaceResult : Type :=
  { f_emotion : option (list Candidate);
    f_gender : option string;
    f_genderScore : option number;
    f_age : option number;
    f_score : nullable;
    f_faceScore : nullable;
    f_distance : option number;
    f_real : option number;
    f_live : option number;
    f_box : option (list number);
    f_size : option number }.

(** [humanRef.current.result] and [humanRef.current]. *)
Record Result : Type := { face : option (list FaceResult) }.
Record Human : Type := { result : option Result }.

(** [FaceData] of [types.ts]. The [rotation] field is left out: it is the
    face's angles times [180 / Math.PI], it reads no buffer and nothing
    below reads it. *)
Record FaceData : Type :=
  { confidence : number;
    faceScore : number;
    d_age : option number;
    d_gender : option string;
    genderScore : option number;
    distance : option number;
    real : option number;
    live : option number;
    d_emotion : option EmotionData;
    box : option (list number);
    size : option number }.

(** The state the loop reads and writes: [detectionActiveRef.current],
    [historyBuffersRef.current] and the [faceData] state variable. *)
Record State : Type :=
  { detectionActive : bool;
    historyBuffers : HistoryBuffers;
    faceData : option FaceData }.

(** [x ?? 0] *)
Definition orZero (x : nullable) : number :=
  match x with
  | Num v => v
  | Null | Undefined => 0%float
  end.

(** [Math.round(x * 100)] *)
Definition percent (x : number) : number := round (x * 100)%float.

(** The comparator [(a, b) => (b.score ?? 0) - (a.score ?? 0)]. *)
Definition byScoreDesc (a b : Candidate) : number :=
  (orZero (cscore b) - orZero (cscore a))%float.

(** [firstFace.emotion.slice().sort(...)[0]] and the push it may cause:
    [top && (top.score ?? 0) >= config.minConfidence]. The item pushed
    holds [top.score] as it is: the cast [as number] does nothing at run
    time. *)
Definition updateEmotion (config : SmoothConfig) (f : FaceResult) (buf : list EmotionData) : list EmotionData :=
  match f_emotion f with
  | Some candidates =>
      match head (sort byScoreDesc candidates) with
      | Some top =>
          if (minConfidence config <=? orZero (cscore top))%float
          then pushWithLimit buf
                 {| name := cemotion top; score := cscore top |}
                 (windowSize config)
          else buf
      | None => buf
      end
  | None => buf
  end.

(** [firstFace.gender && typeof firstFace.genderScore === 'number' &&
     firstFace.genderScore >= config.minConfidence] *)
Definition updateGender (config : SmoothConfig) (f : FaceResult) (buf : list GenderData) : list GenderData :=
  match f_gender f, f_genderScore f with
  | Some g, Some s =>
      if truthy (Str g) && (minConfidence config <=? s)%float
      then pushWithLimit buf {| gender := g; gscore := s |} (windowSize config)
      else buf
  | _, _ => buf
  end.

(** [typeof firstFace.age === 'number'] *)
Definition updateAge (config : SmoothConfig) (f : FaceResult) (buf : list number) : list number :=
  match f_age f with
  | Some a => pushWithLimit buf a (windowSize config)
  | None => buf
  end.

(** The record handed to [setFaceData] for a detected face. *)
Definition display (f : FaceResult) (h : HistoryBuffers) : FaceData :=
  let smoothedEmotion := getSmoothedEmotion (emotion h) in
  let smoothedGender := getSmoothedGender (hgender h) in
  let smoothedAge := getSmoothedAge (age h) in
  {| confidence := percent (orZero (f_score f));
     faceScore := percent (orZero (f_faceScore f));
     d_age := smoothedAge;
     d_gender := sgender smoothedGender;
     genderScore := sscore smoothedGender;
     distance := percent <$> f_distance f;
     real := percent <$> f_real f;
     live := percent <$> f_live f;
     d_emotion := smoothedEmotion;
     box := f_box f;
     size := f_size f |}.

(** One run of [detectionLoop] on the frame [human]; drawing on the canvas,
    the status text and the request for the next frame are left out here
    (see [callback]). *)
Definition detectionLoop (config : SmoothConfig) (human : option Human) (st : State) : State :=
  match detectionActive st, human with
  | true, Some h =>
      match result h with
      | Some {| face := Some (firstFace :: _) |} =>
          let b := historyBuffers st in
          let b' :=
            {| emotion := updateEmotion config firstFace (emotion b);
               hgender := updateGender config firstFace (hgender b);
               age := updateAge config firstFace (age b) |} in
          {| detectionActive := true;
             historyBuffers := b';
             faceData := Some (display firstFace b') |}
      | _ =>
          {| detectionActive := true;
             historyBuffers := historyBuffers st;
             faceData := None |}
      end
  | _, _ => st
  end.

(** The loop over successive frames, oldest first. *)
Definition run (config : SmoothConfig) (frames : list (option Human)) (st : State) : State :=
  fold_left (fun s h => detectionLoop config h s) frames st.

(** A frame on which the detector reports no face, and one with faces. *)
Definition noFace : option Human := Some {| result := Some {| face := Some [] |} |}.
Definition withFaces (fs : list FaceResult) : option Human :=
  Some {| result := Some {| face := Some fs |} |}.

(** *** The controls of the hook

    The state of [useFaceDetection] beside the loop's: whether
    [humanRef.current] and [videoRef.current] are set, whether the video
    element has a stream ([srcObject]), the state variables
    [isModelLoaded], [isDetecting] and [statusMsg], the number of
    [setTimeout] callbacks of [startDetection] that have not run yet, and
    the number of [detectionLoop] callbacks that [requestAnimationFrame]
    holds for the next animation frame. *)
Record Session : Type :=
  { loop : State;
    humanRef : bool;
    videoRef : bool;
    srcObject : bool;
    isModelLoaded : bool;
    isDetecting : bool;
    statusMsg : string;
    pendingStart : nat;
    queued : nat }.

(** [detectionActiveRef.current = b] *)
Definition setActive (b : bool) (st : State) : State :=
  {| detectionActive := b;
     historyBuffers := historyBuffers st;
     faceData := faceData st |}.

(** [stopDetection] *)
Definition stopDetection (s : Session) : Session :=
  {| loop := setActive false (loop s);
     humanRef := humanRef s;
     videoRef := videoRef s;
     srcObject := srcObject s;
     isModelLoaded := isModelLoaded s;
     isDetecting := false;
     statusMsg := "人脸检测已停止";
     pendingStart := pendingStart s;
     queued := queued s |}.

(** [stopCamera]: the tracks are stopped and the stream is detached when
    the video element has one. *)
Definition stopCamera (s : Session) : Session :=
  let attached := videoRef s && srcObject s in
  {| loop := setActive false (loop s);
     humanRef := humanRef s;
     videoRef := videoRef s;
     srcObject := if attached then false else srcObject s;
     isModelLoaded := isModelLoaded s;
     isDetecting := false;
     statusMsg := if attached then "摄像头已停止"%string else statusMsg s;
     pendingStart := pendingStart s;
     queued := queued s |}.

(** [statusMsg := msg], nothing else. *)
Definition setStatusMsg (msg : string) (s : Session) : Session :=
  {| loop := loop s;
     humanRef := humanRef s;
     videoRef := videoRef s;
     srcObject := srcObject s;
     isModelLoaded := isModelLoaded s;
     isDetecting := isDetecting s;
     statusMsg := msg;
     pendingStart := pendingStart s;
     queued := queued s |}.

(** [startDetection], up to the [setTimeout] it arms. [thrown] is the
    message of the error [humanRef.current.video(...)] throws, if it
    throws: the [catch] then reports it and nothing else has happened. *)
Definition startDetection (thrown : option string) (s : Session) : Session :=
  if negb (humanRef s) || negb (videoRef s) then setStatusMsg "模型或摄像头未就绪" s
  else if negb (isModelLoaded s) then setStatusMsg "模型未加载完成" s
  else match thrown with
       | Some message => setStatusMsg ("启动检测失败：" +:+ message) s
       | None =>
           {| loop := loop s;
              humanRef := humanRef s;
              videoRef := videoRef s;
              srcObject := srcObject s;
              isModelLoaded := isModelLoaded s;
              isDetecting := true;
              statusMsg := "人脸检测已启动";
              pendingStart := S (pendingStart s);
              queued := queued s |}
       end.

(** The callback [startDetection] hands to [setTimeout]:
    [detectionActiveRef.current = true; requestAnimationFrame(detectionLoop)].
    It runs only if one is pending, and queues one call of the loop. *)
Definition startTimer (s : Session) : Session :=
  match pendingStart s with
  | O => s
  | S n =>
      {| loop := setActive true (loop s);
         humanRef := humanRef s;
         videoRef := videoRef s;
         srcObject := srcObject s;
         isModelLoaded := isModelLoaded s;
         isDetecting := isDetecting s;
         statusMsg := statusMsg s;
         pendingStart := n;
         queued := S (queued s) |}
  end.

(** The status text of a frame: [`检测到 ${result.face.length} 张人脸`] or
    ['未检测到人脸']. *)
Definition frameStatus (h : Human) : string :=
  match result h with
  | Some {| face := Some (f :: fs) |} =>
      "检测到 " +:+ NilEmpty.string_of_uint (Nat.to_uint (length (f :: fs))) +:+ " 张人脸"
  | _ => "未检测到人脸"
  end.

(** One call of [detectionLoop] taken from the frame queue, with [h] what
    [humanRef.current.result] holds. When the loop is stopped or the ref is
    unset the call returns at once and asks for no further frame; otherwise
    it handles the frame, sets the status text and ends with
    [requestAnimationFrame(detectionLoop)]. *)
Definition callback (config : SmoothConfig) (h : Human) (s : Session) : Session :=
  if detectionActive (loop s) && humanRef s then
    {| loop := detectionLoop config (Some h) (loop s);
       humanRef := humanRef s;
       videoRef := videoRef s;
       srcObject := srcObject s;
       isModelLoaded := isModelLoaded s;
       isDetecting := isDetecting s;
       statusMsg := frameStatus h;
       pendingStart := pendingStart s;
       queued := S (queued s) |}
  else s.

(** The frame queue emptied, as the browser does before it runs the
    callbacks of an animation frame. *)
Definition takeQueue (s : Session) : Session :=
  {| loop := loop s;
     humanRef := humanRef s;
     videoRef := videoRef s;
     srcObject := srcObject s;
     isModelLoaded := isModelLoaded s;
     isDetecting := isDetecting s;
     statusMsg := statusMsg s;
     pendingStart := pendingStart s;
     queued := 0 |}.

(** One animation frame: the calls queued for it run one after the other;
    the calls they queue wait for the next frame. *)
Definition frame (config : SmoothConfig) (h : Human) (s : Session) : Session :=
  Nat.iter (queued s) (callback config h) (takeQueue s).

(** What can happen to a session, and a sequence of such events. Loading the
    model and starting the camera are not among them. *)
Inductive Event : Type :=
  | StartDetection (thrown : option string)
  | StopDetection
  | StopCamera
  | StartTimer
  | Frame (h : Human).

Definition handle (config : SmoothConfig) (s : Session) (e : Event) : Session :=
  match e with
  | StartDetection thrown => startDetection thrown s
  | StopDetection => stopDetection s
  | StopCamera => stopCamera s
  | StartTimer => startTimer s
  | Frame h => frame config h s
  end.

Definition handleAll (config : SmoothConfig) (events : list Event) (s : Session) : Session :=
  fold_left (handle config) events s.

End Hook.

(** ** Vocabulary of the specification *)

Module Spec.
Import Js Utils Hook.

(** The closed set of labels the display table knows. *)
Definition knownLabels : list string :=
  [ "neutral"; "happy"; "sad"; "angry"; "surprise"; "fear"; "disgust";
    "contempt" ]%string.

(** An observation of the specification: a label and a confidence. *)
Definition Observation : Type := string * number.

Definition toEmotion (o : Observation) : EmotionData :=
  {| name := o.1; score := Num o.2 |}.

Definition toGender (o : Observation) : GenderData :=
  {| gender := o.1; gscore := o.2 |}.

(** How often a label occurs. *)
Fixpoint count_of (l : string) (obs : list Observation) : Z :=
  match obs with
  | [] => 0
  | o :: obs' => (if String.eqb o.1 l then 1 else 0) + count_of l obs'
  end.

(** The sum of a label's confidences in binary64: they are added one by
    one, in the order of the list, starting from 0. Their binary64 average is
    that sum divided by the count. *)
Definition sum_of (l : string) (obs : list Observation) : number :=
  fold_left (fun (t : number) (o : Observation) =>
               if String.eqb o.1 l then (t + o.2)%float else t) obs 0%float.

Definition avg_of (l : string) (obs : list Observation) : number :=
  (sum_of l obs / ofZ (count_of l obs))%float.

(** The position at which a label is first encountered (the length of the
    list when it never is). *)
Fixpoint first_pos (l : string) (obs : list Observation) : nat :=
  match obs with
  | [] => 0%nat
  | o :: obs' => if String.eqb o.1 l then 0%nat else S (first_pos l obs')
  end.

(** [w] beats [l]: more occurrences, or as many and a higher average, or a
    tie in both and an earlier first occurrence. *)
Definition beats (obs : list Observation) (w l : string) : Prop :=
  count_of l obs < count_of w obs
  \/ (count_of l obs = count_of w obs /\ (avg_of l obs <? avg_of w obs)%float = true)
  \/ (count_of l obs = count_of w obs /\ (avg_of l obs =? avg_of w obs)%float = true
      /\ (first_pos w obs < first_pos l obs)%nat).

(** The same by count alone. *)
Definition beats_by_count (obs : list Observation) (w l : string) : Prop :=
  count_of l obs < count_of w obs
  \/ (count_of l obs = count_of w obs /\ (first_pos w obs < first_pos l obs)%nat).

(** A comparator that orders by a key, larger keys first. *)
Definition descending {A : Type} (key : A -> number) (a b : A) : number :=
  (key b - key a)%float.

(** The confidence of an emotion candidate: its score, and 0 when it has
    none. *)
Definition confidence (c : Candidate) : number :=
  match cscore c with
  | Num x => x
  | Null | Undefined => 0%float
  end.

(** The candidate at position [i] is the first of the strongest ones: none
    has a higher confidence, and those before it have a lower one. *)
Definition firstStrongest (candidates : list Candidate) (i : nat) (top : Candidate) : Prop :=
  candidates !! i = Some top
  /\ (forall j c, candidates !! j = Some c ->
        (confidence c <=? confidence top)%float = true)
  /\ (forall j c, candidates !! j = Some c -> (j < i)%nat ->
        (confidence c <? confidence top)%float = true).

(** The binary64 mean of a list: its items added one by one from 0, divided
    by their number. And rounding to one decimal place, in binary64. *)
Definition mean (xs : list number) : number :=
  (fold_left PrimFloat.add xs 0 / ofZ (Z.of_nat (length xs)))%float.

Definition round1 (x : number) : number := (round (x * 10) / 10)%float.

(** The same over the rationals, where no operation rounds: the mean, and
    the integer nearest to a rational, a half going up. *)
Definition exactMean (xs : list Q) : Q :=
  fold_right Qplus 0%Q xs / inject_Z (Z.of_nat (length xs)).

Definition nearest (x : Q) : Z := Qfloor (x + (1 # 2)).

(** The last [n] items of a list. *)
Definition last_n {T : Type} (n : nat) (items : list T) : list T :=
  drop (length items - n) items.

(** Whether the loop finds a face in what the detector reports:
    [result && result.face && result.face.length > 0]. *)
Definition detects (h : Human) : bool :=
  match Hook.result h with
  | Some {| Hook.face := Some (_ :: _) |} => true
  | _ => false
  end.

(** A run of [pushWithLimit] calls with one limit, oldest item first. *)
Definition pushAll {T : Type} (limit : Z) (arr : list T) (items : list T) : list T :=
  fold_left (fun a x => pushWithLimit a x limit) items arr.

(** The counter both mode aggregators build from a history, and the
    average the loop of [getSmoothedEmotion] computes for an entry. *)
Definition tallyAll (obs : list Observation) : list (string * Stats) :=
  fold_left (fun c (o : Observation) => tally c o.1 o.2) obs [].

Definition average (v : Stats) : number := (total v / ofZ (count v))%float.

(** An entry of the counter agrees with the history it was built from. *)
Definition agrees (obs : list Observation) (e : string * Stats) : Prop :=
  0 < count_of e.1 obs
  /\ count e.2 = count_of e.1 obs
  /\ total e.2 = sum_of e.1 obs.

(** A label is first encountered before another one. *)
Definition earlier (obs : list Observation) (a b : string) : Prop :=
  (first_pos a obs < first_pos b obs)%nat.

(** An entry ranks strictly below another, or not above it: by count first,
    by average on equal counts. *)
Definition below (v' v : Stats) : Prop :=
  count v' < count v
  \/ (count v' = count v /\ (average v' <? average v)%float = true).

Definition notAbove (v' v : Stats) : Prop :=
  count v' < count v
  \/ (count v' = count v /\ (average v <? average v')%float = false).

(** *** Order on binary64 numbers

    A number that is not [NaN] has a rank: a triple of integers whose
    lexicographic order is the order of the numbers. *)
Definition rank (x : spec_float) : Z * Z * Z :=
  match x with
  | S754_nan => (0, 0, 0)
  | S754_zero _ => (0, 0, 0)
  | S754_infinity s => (if s then -2 else 2, 0, 0)
  | S754_finite s m e => if s then (-1, - e, Z.neg m) else (1, e, Z.pos m)
  end.

Definition rk (x : number) : Z * Z * Z := rank (Prim2SF x).

Definition lt3 (p q : Z * Z * Z) : Prop :=
  p.1.1 < q.1.1 \/ (p.1.1 = q.1.1 /\ (p.1.2 < q.1.2 \/ (p.1.2 = q.1.2 /\ p.2 < q.2))).

Definition le3 (p q : Z * Z * Z) : Prop := ~ lt3 q p.

(** *** Vocabulary for the loop over many frames *)

(** The first face of a frame, when the loop finds one. *)
Definition firstFace (frame : option Human) : option FaceResult :=
  match frame with
  | Some h =>
      match Hook.result h with
      | Some {| Hook.face := Some (f :: _) |} => Some f
      | _ => None
      end
  | None => None
  end.

(** The ages the frames report for their first faces, oldest first. *)
Definition agesOf (frames : list (option Human)) : list number :=
  omap (fun fr => firstFace fr ≫= f_age) frames.

(** No buffer is longer than the window. *)
Definition bounded (config : SmoothConfig) (h : HistoryBuffers) : Prop :=
  Z.of_nat (length (emotion h)) <= windowSize config
  /\ Z.of_nat (length (hgender h)) <= windowSize config
  /\ Z.of_nat (length (age h)) <= windowSize config.

(** An observation that passed the threshold of a configuration: its score
    is a number, and one that is not below [minConfidence]. *)
Definition acceptedEmotion (config : SmoothConfig) (e : EmotionData) : Prop :=
  exists x : number, score e = Num x /\ (minConfidence config <=? x)%float = true.

Definition acceptedGender (config : SmoothConfig) (g : GenderData) : Prop :=
  gender g <> EmptyString /\ (minConfidence config <=? gscore g)%float = true.

(** What the face data shows of the gender: nothing, or a label that is not
    empty together with a score. *)
Definition genderShown (d : FaceData) : Prop :=
  (d_gender d = None /\ genderScore d = None)
  \/ exists (w : string) (s : number),
       w <> EmptyString /\ d_gender d = Some w /\ genderScore d = Some s.

(** Face data that shows no age, gender or emotion. *)
Definition blank (d : FaceData) : Prop :=
  d_age d = None /\ d_gender d = None /\ genderScore d = None /\ d_emotion d = None.

(** A session that can start detecting: both refs set, the model loaded. *)
Definition ready (s : Session) : bool :=
  humanRef s && videoRef s && isModelLoaded s.

(** What a session hands to the loop on a frame: [humanRef.current], with
    the result [h] it holds, or nothing when the ref is unset. *)
Definition seen (s : Session) (h : Human) : option Human :=
  if humanRef s then Some h else None.

(** Two sessions that the frames to come cannot tell apart: the same state
    of the loop, the same ref, as many calls of the loop queued. *)
Definition alike (s1 s2 : Session) : Prop :=
  loop s1 = loop s2 /\ humanRef s1 = humanRef s2 /\ queued s1 = queued s2.

End Spec.

(** ** Sample inputs *)

Module Sample.
Import Js Utils Hook.

(** A face of which the detector reports nothing but the given fields. *)
Definition bareFace (e : option (list Candidate)) (g : option string) (gs : option number) : FaceResult :=
  {| f_emotion := e; f_gender := g; f_genderScore := gs; f_age := None;
     f_score := Undefined; f_faceScore := Undefined; f_distance := None;
     f_real := None; f_live := None; f_box := None; f_size := None |}.

(** A running session with the given buffers. *)
Definition session (h : HistoryBuffers) : State :=
  {| detectionActive := true; historyBuffers := h; faceData := None |}.

(** A session that has already seen one happy frame. *)
Definition warm : State :=
  session {| emotion := [ {| name := "happy"; score := Num 0.9 |} ];
             hgender := [ {| gender := "female"; gscore := 0.8%float |} ];
             age := [ 30%float ] |}.

(** A configuration that accepts every confidence from 0 up. *)
Definition acceptAll : SmoothConfig := {| windowSize := 1; minConfidence := 0%float |}.

(** The default threshold with a window of two frames. *)
Definition twoFrames : SmoothConfig := {| windowSize := 2; minConfidence := 0.3%float |}.

(** A face whose only emotion candidate carries no score. *)
Definition scoreless : FaceResult :=
  bareFace (Some [ {| cscore := Undefined; cemotion := "happy" |} ]) None None.

(** A face whose only emotion candidate is weaker than the default
    threshold. *)
Definition weak : FaceResult :=
  bareFace (Some [ {| cscore := Num 0.2; cemotion := "sad" |} ]) None None.

(** A face with three scored candidates, the second one the strongest, and
    the third tying with it. *)
Definition threeCandidates : FaceResult :=
  bareFace (Some [ {| cscore := Num 0.2; cemotion := "sad" |};
                   {| cscore := Num 0.7; cemotion := "happy" |};
                   {| cscore := Num 0.7; cemotion := "neutral" |} ])
           (Some "male"%string) None.

(** A session ready to detect: model loaded, camera playing, not started. *)
Definition idle : Session :=
  {| loop := {| detectionActive := false;
                historyBuffers := createHistoryBuffers;
                faceData := None |};
     humanRef := true;
     videoRef := true;
     srcObject := true;
     isModelLoaded := true;
     isDetecting := false;
     statusMsg := "摄像头已启动";
     pendingStart := 0;
     queued := 0 |}.

(** The same while the model is still loading. *)
Definition loading : Session :=
  {| loop := loop idle;
     humanRef := true;
     videoRef := true;
     srcObject := true;
     isModelLoaded := false;
     isDetecting := false;
     statusMsg := "摄像头已启动";
     pendingStart := 0;
     queued := 0 |}.

(** A session that is detecting and has seen one frame: one call of the
    loop waits for the next frame. *)
Definition detecting : Session :=
  {| loop := warm;
     humanRef := true;
     videoRef := true;
     srcObject := true;
     isModelLoaded := true;
     isDetecting := true;
     statusMsg := "检测到 1 张人脸";
     pendingStart := 0;
     queued := 1 |}.

(** What the detector holds for a frame with the given faces. *)
Definition sees (fs : list FaceResult) : Human :=
  {| result := Some {| face := Some fs |} |}.

(** A face that reports an age of 40 and a confident gender. *)
Definition aged : FaceResult :=
  {| f_emotion := None; f_gender := Some "male"%string; f_genderScore := Some 0.9%float;
     f_age := Some 40%float; f_score := Num 0.95; f_faceScore := Undefined;
     f_distance := None; f_real := Some 0.5%float; f_live := None; f_box := None;
     f_size := None |}.

End Sample.

(** * Properties *)

Import Js Utils Hook Spec.
(** ** The history buffer *)

Section Buffer.
Context {T : Type}.
Implicit Types (arr items : list T) (item x : T) (limit : Z).

Lemma pushAll_snoc limit arr items x :
  pushAll limit arr (items ++ [x]) = pushWithLimit (pushAll limit arr items) x limit.
Proof. unfold pushAll. now rewrite fold_left_app. Qed.

Lemma tail_drop_snoc (m : nat) (l : list T) x :
  (m < length l)%nat -> tail (drop m l ++ [x]) = drop (S m) (l ++ [x]).
Proof.
  revert m. induction l as [|y l IH]; intros m Hm; simpl in Hm; [lia|].
  destruct m as [|m].
  - simpl. now rewrite drop_0.
  - change (drop (S m) (y :: l)) with (drop m l).
    change (drop (S (S m)) ((y :: l) ++ [x])) with (drop (S m) (l ++ [x])).
    apply IH. lia.
Qed.

(** From the empty buffer, a run of pushes leaves the last [limit] items. *)
Lemma pushAll_last_n limit items :
  1 <= limit -> pushAll limit [] items = last_n (Z.to_nat limit) items.
Proof.
  intros Hl. unfold last_n. induction items as [|x items IH] using rev_ind.
  - reflexivity.
  - rewrite pushAll_snoc, IH. unfold pushWithLimit.
    rewrite !length_app, length_drop. simpl length.
    destruct (Z.gtb_spec
                (Z.of_nat (length items - (length items - Z.to_nat limit) + 1)) limit)
      as [Hgt|Hle].
    + assert (Hm : (length items - Z.to_nat limit < length items)%nat) by lia.
      rewrite (tail_drop_snoc _ _ _ Hm). f_equal. lia.
    + rewrite drop_app_le by lia. f_equal. f_equal. lia.
Qed.

Lemma pushWithLimit_length arr item limit :
  length (pushWithLimit arr item limit)
  = if Z.of_nat (length arr) + 1 >? limit then length arr else S (length arr).
Proof.
  unfold pushWithLimit. rewrite length_app. simpl length.
  replace (Z.of_nat (length arr + 1)) with (Z.of_nat (length arr) + 1) by lia.
  destruct (Z.of_nat (length arr) + 1 >? limit).
  - destruct arr; simpl; [reflexivity|]. rewrite length_app. simpl. lia.
  - rewrite length_app. simpl. lia.
Qed.

Lemma pushAll_nonpositive limit items :
  limit <= 0 -> pushAll limit [] items = [].
Proof.
  intros Hl. induction items as [|x items IH] using rev_ind; [reflexivity|].
  rewrite pushAll_snoc, IH. unfold pushWithLimit. simpl app. simpl length.
  destruct (Z.gtb_spec (Z.of_nat 1) limit); [reflexivity | lia].
Qed.

(** C1. With a limit [N >= 1] and an empty buffer to start from, the buffer
    never holds more than [N] items after any number of pushes, and after
    [N + k] pushes it holds the last [N] items pushed, in the order they
    were pushed. *)
Theorem pushWithLimit_sliding_window limit items :
  1 <= limit ->
  (forall n : nat, Z.of_nat (length (pushAll limit [] (take n items))) <= limit)
  /\ (forall k : nat,
        length items = (Z.to_nat limit + k)%nat ->
        pushAll limit [] items = drop k items
        /\ length (pushAll limit [] items) = Z.to_nat limit)
  /\ pushAll limit [] items = last_n (Z.to_nat limit) items.
Proof.
  intros Hl. split; [|split].
  - intros n. rewrite pushAll_last_n by assumption. unfold last_n.
    rewrite length_drop. lia.
  - intros k Hk. rewrite pushAll_last_n by assumption. unfold last_n.
    rewrite Hk. replace (Z.to_nat limit + k - Z.to_nat limit)%nat with k by lia.
    split; [reflexivity|]. rewrite length_drop. lia.
  - now apply pushAll_last_n.
Qed.

(** C10. One call leaves the length as it was when the old length plus one
    exceeds the limit, and one longer otherwise; when it exceeds, the call
    removes exactly the front element of the extended buffer; the buffer is
    never shorter after the call; and with a limit [<= 0] the empty buffer
    stays empty, call after call. *)
Theorem pushWithLimit_single_call arr item limit :
  length (pushWithLimit arr item limit)
  = (if Z.of_nat (length arr) + 1 >? limit then length arr else S (length arr))
  /\ pushWithLimit arr item limit
     = (if Z.of_nat (length arr) + 1 >? limit then tail (arr ++ [item]) else arr ++ [item])
  /\ (length arr <= length (pushWithLimit arr item limit))%nat
  /\ (limit <= 0 ->
      pushWithLimit [] item limit = []
      /\ forall items, pushAll limit [] items = []).
Proof.
  split; [apply pushWithLimit_length|]. split; [|split].
  - unfold pushWithLimit. rewrite length_app. simpl length.
    now replace (Z.of_nat (length arr + 1)) with (Z.of_nat (length arr) + 1) by lia.
  - rewrite pushWithLimit_length.
    destruct (Z.of_nat (length arr) + 1 >? limit); lia.
  - intros Hl. split.
    + apply (pushAll_nonpositive limit [item] Hl).
    + intros items. now apply pushAll_nonpositive.
Qed.

End Buffer.

Lemma pushWithLimit_sliding_window_witness :
  pushAll 3 [] [1; 2; 3; 4; 5]%nat = drop 2 [1; 2; 3; 4; 5]%nat
  /\ length (pushAll 3 [] [1; 2; 3; 4; 5]%nat) = Z.to_nat 3.
Proof.
  apply (proj1 (proj2 (pushWithLimit_sliding_window 3 [1; 2; 3; 4; 5]%nat ltac:(lia))) 2%nat).
  reflexivity.
Defined.

Lemma pushWithLimit_single_call_witness :
  pushWithLimit [] 7%nat 0 = [] /\ forall items : list nat, pushAll 0 [] items = [].
Proof.
  apply (proj2 (proj2 (proj2 (pushWithLimit_single_call [] 7%nat 0)))). lia.
Defined.

(** ** Empty histories *)

(** C7. On an empty history each aggregator returns its "no result" value:
    [null], [{gender: null, score: null}] and [null]. *)
Theorem aggregators_on_empty_history :
  getSmoothedEmotion [] = None
  /\ getSmoothedGender [] = {| sgender := None; sscore := None |}
  /\ getSmoothedAge [] = None.
Proof. repeat split. Qed.

(** ** The emotion-label table *)

(** X2. Each of the eight known labels maps to its display string. *)
Lemma translateEmotionName_known :
  translateEmotionName "neutral" = Str "平静"
  /\ translateEmotionName "happy" = Str "高兴"
  /\ translateEmotionName "sad" = Str "伤心"
  /\ translateEmotionName "angry" = Str "生气"
  /\ translateEmotionName "surprise" = Str "惊讶"
  /\ translateEmotionName "fear" = Str "恐惧"
  /\ translateEmotionName "disgust" = Str "厌恶"
  /\ translateEmotionName "contempt" = Str "轻蔑".
Proof. repeat split; vm_compute; reflexivity. Qed.

Lemma map_lookup_unknown (name : string) :
  name ∉ knownLabels -> Utils.map !! name = None.
Proof.
  intros Hn. unfold Utils.map. apply not_elem_of_list_to_map_1. exact Hn.
Qed.

(** X3. A label outside the table that names no member of
    [Object.prototype] is returned unchanged. *)
Lemma translateEmotionName_passthrough (name : string) :
  name ∉ knownLabels -> name ∉ Object_prototype ->
  translateEmotionName name = Str name.
Proof.
  intros Hk Hp. unfold translateEmotionName, get.
  rewrite (map_lookup_unknown name Hk).
  now rewrite bool_decide_eq_false_2.
Qed.

(** X4. A label that names a member of [Object.prototype] is looked up
    there: the result is that member, not the label. *)
Lemma translateEmotionName_inherited (name : string) :
  name ∈ Object_prototype -> translateEmotionName name = Inherited name.
Proof.
  intros Hp. unfold translateEmotionName, get.
  assert (Hdisj : Forall (fun k => k ∉ knownLabels) Object_prototype).
  { apply (bool_decide_unpack _). vm_compute. exact I. }
  assert (Hk : name ∉ knownLabels).
  { rewrite Forall_forall in Hdisj. now apply Hdisj. }
  rewrite (map_lookup_unknown name Hk).
  now rewrite bool_decide_eq_true_2.
Qed.

Lemma translateEmotionName_passthrough_witness :
  translateEmotionName "bored" = Str "bored".
Proof.
  apply (translateEmotionName_passthrough "bored");
    apply (bool_decide_unpack _); vm_compute; exact I.
Defined.

Lemma translateEmotionName_inherited_witness :
  translateEmotionName "toString" = Inherited "toString".
Proof.
  apply (translateEmotionName_inherited "toString").
  apply (bool_decide_unpack _). vm_compute. exact I.
Defined.

(** C9, at the label ["constructor"]: it is none of the eight known labels,
    and [translateEmotionName] returns the [constructor] member of
    [Object.prototype] instead of the label. *)
Theorem translateEmotionName_constructor :
  ("constructor" ∉ knownLabels)
  /\ translateEmotionName "constructor" = Inherited "constructor"
  /\ translateEmotionName "constructor" <> Str "constructor".
Proof.
  split; [|split].
  - apply (bool_decide_unpack _). vm_compute. exact I.
  - vm_compute. reflexivity.
  - vm_compute. discriminate.
Qed.

(** ** Binary64 numbers

    What the proofs below need of the arithmetic: the order of the numbers
    that are not [NaN], and the sign of a difference. *)

Section Rounding.

Lemma digits2_pos_bounds (m : positive) :
  2 ^ (Z.pos (digits2_pos m) - 1) <= Z.pos m < 2 ^ Z.pos (digits2_pos m).
Proof.
  induction m as [m IH|m IH|]; cbn [digits2_pos].
  - rewrite Pos2Z.inj_succ, Z.pow_succ_r by lia.
    replace (Z.succ (Z.pos (digits2_pos m)) - 1) with (Z.succ (Z.pos (digits2_pos m) - 1)) by lia.
    rewrite Z.pow_succ_r by lia. lia.
  - rewrite Pos2Z.inj_succ, Z.pow_succ_r by lia.
    replace (Z.succ (Z.pos (digits2_pos m)) - 1) with (Z.succ (Z.pos (digits2_pos m) - 1)) by lia.
    rewrite Z.pow_succ_r by lia. lia.
  - simpl. lia.
Qed.

Lemma iter_pos_nat {A : Type} (f : A -> A) (p : positive) (x : A) :
  SpecFloat.iter_pos f p x = Nat.iter (Pos.to_nat p) f x.
Proof.
  revert x. induction p as [p IH|p IH|]; intros x; cbn [SpecFloat.iter_pos].
  - rewrite !IH, Pos2Nat.inj_xI. rewrite <- Nat.iter_add, <- Nat.iter_succ_r.
    f_equal. lia.
  - rewrite !IH, Pos2Nat.inj_xO. rewrite <- Nat.iter_add. f_equal. lia.
  - reflexivity.
Qed.

(** A shift to the right halves the mantissa. *)
Lemma shr_1_m (r : shr_record) : 0 <= shr_m r -> shr_m (shr_1 r) = shr_m r / 2.
Proof.
  destruct r as [m r s]. cbn [shr_m]. intros Hm.
  destruct m as [|[p|p|]|p]; cbn [shr_1 shr_m]; try lia; try reflexivity.
  - apply (Z.div_unique _ 2 _ 1); lia.
  - apply (Z.div_unique _ 2 _ 0); lia.
Qed.

Lemma shr_iter_m (n : nat) (r : shr_record) :
  0 <= shr_m r -> shr_m (Nat.iter n shr_1 r) = shr_m r / 2 ^ Z.of_nat n.
Proof.
  intros Hm. induction n as [|n IH].
  - simpl. now rewrite Z.div_1_r.
  - rewrite Nat.iter_succ, shr_1_m.
    + rewrite IH, Nat2Z.inj_succ, Z.pow_succ_r by lia.
      rewrite Z.div_div by lia. f_equal. lia.
    + rewrite IH. apply Z.div_pos; lia.
Qed.

Lemma shr_record_of_loc_m (m : Z) (l : location) : shr_m (shr_record_of_loc m l) = m.
Proof. destruct l as [|[]]; reflexivity. Qed.

(** After [shr_fexp], a positive mantissa at an exponent not below [emin]
    is still positive, at an exponent not below [emin]. *)
Lemma shr_fexp_pos (m : positive) (e : Z) (l : location) :
  emin <= e ->
  0 < shr_m (shr_fexp prec emax (Z.pos m) e l).1
  /\ emin <= (shr_fexp prec emax (Z.pos m) e l).2.
Proof.
  intros He. unfold shr_fexp, shr. cbn [Zdigits2].
  pose proof (digits2_pos_bounds m) as [Hlo Hhi].
  set (d := Z.pos (digits2_pos m)) in *.
  unfold fexp. change (SpecFloat.emin prec emax) with emin.
  destruct (Z.max (d + e - prec) emin - e) as [|p|p] eqn:En; cbn [fst snd].
  - rewrite shr_record_of_loc_m. lia.
  - rewrite iter_pos_nat, shr_iter_m by (rewrite shr_record_of_loc_m; lia).
    rewrite shr_record_of_loc_m, positive_nat_Z.
    assert (Hp : Z.pos p = d - prec) by lia.
    split; [|lia]. rewrite Hp.
    apply Z.div_str_pos. split; [apply Z.pow_pos_nonneg; lia|].
    etransitivity; [|exact Hlo]. apply Z.pow_le_mono_r; unfold prec; lia.
  - rewrite shr_record_of_loc_m. lia.
Qed.

Lemma round_nearest_even_pos (m : Z) (l : location) :
  0 < m -> 0 < round_nearest_even m l.
Proof.
  intros Hm. destruct l as [|[]]; cbn [round_nearest_even]; try lia.
  destruct (Z.even m); lia.
Qed.

(** Rounding a positive mantissa at an exponent not below [emin] gives a
    finite number or an infinity of the sign given, never a zero. *)
Lemma binary_round_aux_pos (s : bool) (m : positive) (e : Z) (l : location) :
  emin <= e ->
  (exists m' e', binary_round_aux prec emax s (Z.pos m) e l = S754_finite s m' e')
  \/ binary_round_aux prec emax s (Z.pos m) e l = S754_infinity s.
Proof.
  intros He. unfold binary_round_aux.
  destruct (shr_fexp_pos m e l He) as [H1 H1'].
  destruct (shr_fexp prec emax (Z.pos m) e l) as [mrs' e']. cbn [fst snd] in *.
  pose proof (round_nearest_even_pos _ (loc_of_shr_record mrs') H1) as H2.
  destruct (round_nearest_even (shr_m mrs') (loc_of_shr_record mrs')) as [|m2|m2]; try lia.
  destruct (shr_fexp_pos m2 e' loc_Exact H1') as [H3 _].
  destruct (shr_fexp prec emax (Z.pos m2) e' loc_Exact) as [mrs'' e'']. cbn [fst snd] in *.
  destruct (shr_m mrs'') as [|m3|m3]; try lia.
  destruct (e'' <=? emax - prec); [left; eauto | now right].
Qed.

Lemma shl_align_fst (m : positive) (e e' : Z) :
  e' <= e -> Z.pos (shl_align m e e').1 = Z.pos m * 2 ^ (e - e').
Proof.
  intros He. unfold shl_align.
  destruct (e' - e) as [|p|p] eqn:E; cbn [fst].
  - replace (e - e') with 0 by lia. simpl. lia.
  - lia.
  - replace (e - e') with (Z.pos p) by lia.
    clear. induction p as [|p IH] using Pos.peano_ind.
    + simpl. lia.
    + rewrite Pos.iter_succ, Pos2Z.inj_succ, Z.pow_succ_r by lia.
      rewrite Pos2Z.inj_xO, IH. lia.
Qed.

Lemma binary_round_pos (s : bool) (m : positive) (e : Z) :
  emin <= e ->
  (exists m' e', binary_round prec emax s m e = S754_finite s m' e')
  \/ binary_round prec emax s m e = S754_infinity s.
Proof.
  intros He. unfold binary_round.
  destruct (shl_align m e (fexp prec emax (Z.pos (digits2_pos m) + e))) as [mz ez] eqn:E.
  apply binary_round_aux_pos.
  unfold shl_align in E. unfold fexp in E. change (SpecFloat.emin prec emax) with emin in E.
  destruct (Z.max (Z.pos (digits2_pos m) + e - prec) emin - e); injection E as <- <-; lia.
Qed.

(** A valid finite number has fewer than [2 ^ prec] in its mantissa, an
    exponent not below [emin], and a full mantissa above [emin]. *)
Lemma bounded_canonical (m : positive) (e : Z) :
  SpecFloat.bounded prec emax m e = true ->
  emin <= e /\ Z.pos m < 2 ^ prec /\ (emin < e -> 2 ^ (prec - 1) <= Z.pos m).
Proof.
  unfold SpecFloat.bounded, canonical_mantissa, fexp.
  change (SpecFloat.emin prec emax) with emin.
  intros H. apply andb_prop in H as [H _]. apply Z.eqb_eq in H.
  pose proof (digits2_pos_bounds m) as [Hlo Hhi].
  set (d := Z.pos (digits2_pos m)) in *.
  split; [lia|]. split.
  - eapply Z.lt_le_trans; [exact Hhi|]. apply Z.pow_le_mono_r; lia.
  - intros He. replace (prec - 1) with (d - 1) by lia. exact Hlo.
Qed.

End Rounding.

Section Order.

(** The comparison of two numbers that are not [NaN] is the comparison of
    their ranks. *)
Lemma SFcompare_rank (x y : spec_float) :
  x <> S754_nan -> y <> S754_nan ->
  exists c, SFcompare x y = Some c
    /\ (c = Lt <-> lt3 (rank x) (rank y))
    /\ (c = Gt <-> lt3 (rank y) (rank x)).
Proof.
  intros Hx Hy. unfold lt3.
  destruct x as [[]|[]| |[] mx ex], y as [[]|[]| |[] my ey]; try congruence;
    simpl; try (eexists; split; [reflexivity|]; split; split; (congruence || lia)).
  - change (PosDef.Pos.compare_cont Eq mx my) with (Pos.compare mx my).
    eexists; split; [reflexivity|].
    destruct (Z.compare_spec ex ey); [subst|..];
      [destruct (Pos.compare_spec mx my)|..]; simpl; split; split; (congruence || lia).
  - change (PosDef.Pos.compare_cont Eq mx my) with (Pos.compare mx my).
    eexists; split; [reflexivity|].
    destruct (Z.compare_spec ex ey); [subst|..];
      [destruct (Pos.compare_spec mx my)|..]; simpl; split; split; (congruence || lia).
Qed.

Lemma SFltb_rank (x y : spec_float) :
  x <> S754_nan -> y <> S754_nan -> SFltb x y = true <-> lt3 (rank x) (rank y).
Proof.
  intros Hx Hy. unfold SFltb.
  destruct (SFcompare_rank _ _ Hx Hy) as (c & -> & H1 & H2).
  rewrite <- H1. destruct c; split; congruence.
Qed.

Lemma is_nan_spec (x : number) : is_nan x = false <-> Prim2SF x <> S754_nan.
Proof.
  unfold is_nan. rewrite FloatAxioms.eqb_spec. unfold SFeqb.
  destruct (Prim2SF x) as [[]|[]| |[] m e] eqn:E; simpl;
    try (split; [congruence | reflexivity]).
  - split; [discriminate | congruence].
  - rewrite Z.compare_refl. change (PosDef.Pos.compare_cont Eq m m) with (Pos.compare m m).
    rewrite Pos.compare_refl. simpl. split; [congruence | reflexivity].
  - rewrite Z.compare_refl. change (PosDef.Pos.compare_cont Eq m m) with (Pos.compare m m).
    rewrite Pos.compare_refl. simpl. split; [congruence | reflexivity].
Qed.

(** A comparison that holds has no [NaN] on either side. *)
Lemma SFcompare_numeric (x y : number) (c : comparison) :
  SFcompare (Prim2SF x) (Prim2SF y) = Some c -> is_nan x = false /\ is_nan y = false.
Proof.
  intros H. split; apply is_nan_spec; intros E; rewrite E in H;
    [|destruct (Prim2SF x)]; discriminate.
Qed.

Lemma ltb_numeric (x y : number) :
  (x <? y)%float = true -> is_nan x = false /\ is_nan y = false.
Proof.
  rewrite FloatAxioms.ltb_spec. unfold SFltb.
  destruct (SFcompare _ _) as [c|] eqn:E; [|discriminate].
  intros _. eapply SFcompare_numeric, E.
Qed.

Lemma leb_numeric (x y : number) :
  (x <=? y)%float = true -> is_nan x = false /\ is_nan y = false.
Proof.
  rewrite FloatAxioms.leb_spec. unfold SFleb.
  destruct (SFcompare _ _) as [c|] eqn:E; [|discriminate].
  intros _. eapply SFcompare_numeric, E.
Qed.

Lemma eqb_numeric (x y : number) :
  (x =? y)%float = true -> is_nan x = false /\ is_nan y = false.
Proof.
  rewrite FloatAxioms.eqb_spec. unfold SFeqb.
  destruct (SFcompare _ _) as [c|] eqn:E; [|discriminate].
  intros _. eapply SFcompare_numeric, E.
Qed.

Context (x y : number) (Hx : is_nan x = false) (Hy : is_nan y = false).

Lemma compare_rank :
  exists c, SFcompare (Prim2SF x) (Prim2SF y) = Some c
    /\ (c = Lt <-> lt3 (rk x) (rk y))
    /\ (c = Gt <-> lt3 (rk y) (rk x)).
Proof. apply SFcompare_rank; now apply is_nan_spec. Qed.

Lemma ltb_true : (x <? y)%float = true <-> lt3 (rk x) (rk y).
Proof.
  rewrite FloatAxioms.ltb_spec. unfold SFltb.
  destruct compare_rank as (c & -> & H1 & H2).
  rewrite <- H1. destruct c; split; congruence.
Qed.

Lemma ltb_false : (x <? y)%float = false <-> le3 (rk y) (rk x).
Proof.
  unfold le3. rewrite <- ltb_true. destruct (x <? y)%float; split; congruence.
Qed.

Lemma leb_true : (x <=? y)%float = true <-> le3 (rk x) (rk y).
Proof.
  rewrite FloatAxioms.leb_spec. unfold SFleb, le3.
  destruct compare_rank as (c & -> & H1 & H2).
  rewrite <- H2. destruct c; split; congruence.
Qed.

Lemma leb_false : (x <=? y)%float = false <-> lt3 (rk y) (rk x).
Proof.
  rewrite FloatAxioms.leb_spec. unfold SFleb.
  destruct compare_rank as (c & -> & H1 & H2).
  rewrite <- H2. destruct c; split; congruence.
Qed.

Lemma eqb_true : (x =? y)%float = true <-> le3 (rk x) (rk y) /\ le3 (rk y) (rk x).
Proof.
  rewrite FloatAxioms.eqb_spec. unfold SFeqb, le3.
  destruct compare_rank as (c & -> & H1 & H2).
  rewrite <- H1, <- H2.
  destruct c; split; intros H; try reflexivity; try (split; congruence);
    destruct H; congruence.
Qed.

End Order.

(** Facts of order between numbers that are not [NaN], by arithmetic on
    their ranks. *)
Ltac float_order :=
  repeat match goal with
    | H : (_ <? _)%float = true |- _ => apply ltb_true in H; [|assumption..]
    | H : (_ <? _)%float = false |- _ => apply ltb_false in H; [|assumption..]
    | H : (_ <=? _)%float = true |- _ => apply leb_true in H; [|assumption..]
    | H : (_ <=? _)%float = false |- _ => apply leb_false in H; [|assumption..]
    | H : (_ =? _)%float = true |- _ => apply eqb_true in H; [|assumption..]
    end;
  try match goal with
    | |- (_ <? _)%float = true => apply ltb_true; [assumption..|]
    | |- (_ <? _)%float = false => apply ltb_false; [assumption..|]
    | |- (_ <=? _)%float = true => apply leb_true; [assumption..|]
    | |- (_ <=? _)%float = false => apply leb_false; [assumption..|]
    | |- (_ =? _)%float = true => apply eqb_true; [assumption..|]
    end;
  unfold le3, lt3 in *;
  repeat match goal with
    | H : context [rk ?x] |- _ =>
        let r := fresh "r" in set (r := rk x) in *; clearbody r; destruct r as [[? ?] ?]
    | |- context [rk ?x] =>
        let r := fresh "r" in set (r := rk x) in *; clearbody r; destruct r as [[? ?] ?]
    end;
  cbn [fst snd] in *; lia.

Section Difference.

Lemma pow2_ge_2 (k : Z) : 0 < k -> 2 <= 2 ^ k.
Proof.
  intros Hk. change 2 with (2 ^ 1) at 1. apply Z.pow_le_mono_r; lia.
Qed.

(** Two valid finite numbers compare as their mantissas do once aligned on
    the smaller exponent. *)
Lemma aligned_compare (sx : bool) (mx : positive) (ex : Z) (sy : bool) (my : positive) (ey : Z) :
  SpecFloat.bounded prec emax mx ex = true -> SpecFloat.bounded prec emax my ey = true ->
  cond_Zopp sx (Z.pos (shl_align mx ex (Z.min ex ey)).1)
  < cond_Zopp sy (Z.pos (shl_align my ey (Z.min ex ey)).1)
  <-> lt3 (rank (S754_finite sx mx ex)) (rank (S754_finite sy my ey)).
Proof.
  intros Hx Hy.
  apply bounded_canonical in Hx as (Hex & Hmx & Hnx), Hy as (Hey & Hmy & Hny).
  rewrite !shl_align_fst by lia.
  change (2 ^ prec) with 9007199254740992 in *.
  change (2 ^ (prec - 1)) with 4503599627370496 in *.
  unfold lt3. destruct (Z.lt_total ex ey) as [Hlt | [Heq | Hgt]].
  - rewrite Z.min_l by lia. replace (ex - ex) with 0 by lia.
    pose proof (pow2_ge_2 (ey - ex) ltac:(lia)) as Hk.
    set (K := 2 ^ (ey - ex)) in *. specialize (Hny ltac:(lia)).
    assert (HK : 2 * Z.pos my <= Z.pos my * K) by nia.
    destruct sx, sy; simpl; lia.
  - subst ey. rewrite Z.min_id. replace (ex - ex) with 0 by lia.
    destruct sx, sy; simpl; lia.
  - rewrite Z.min_r by lia. replace (ey - ey) with 0 by lia.
    pose proof (pow2_ge_2 (ex - ey) ltac:(lia)) as Hk.
    set (K := 2 ^ (ex - ey)) in *. specialize (Hnx ltac:(lia)).
    assert (HK : 2 * Z.pos mx <= Z.pos mx * K) by nia.
    destruct sx, sy; simpl; lia.
Qed.

Lemma SFltb_zero_l (r : spec_float) :
  SFltb (S754_zero false) r
  = match r with
    | S754_finite s _ _ | S754_infinity s => negb s
    | _ => false
    end.
Proof. destruct r as [[]|[]| |[] m e]; reflexivity. Qed.

(** The sum or difference of two aligned mantissas rounds to a number of
    its sign: the subtraction of two numbers never underflows to zero. *)
Lemma binary_normalize_sign (m e : Z) :
  emin <= e ->
  SFltb (S754_zero false) (binary_normalize prec emax m e false) = (0 <? m).
Proof.
  intros He. rewrite SFltb_zero_l. destruct m as [|p|p]; cbn [binary_normalize].
  - reflexivity.
  - destruct (binary_round_pos false p e He) as [(m' & e' & ->) | ->]; reflexivity.
  - destruct (binary_round_pos true p e He) as [(m' & e' & ->) | ->]; reflexivity.
Qed.

Lemma SFsub_pos (x y : spec_float) :
  valid_binary x = true -> valid_binary y = true ->
  x <> S754_nan -> y <> S754_nan ->
  SFltb (S754_zero false) (SF64sub y x) = SFltb x y.
Proof.
  intros Vx Vy Hx Hy.
  destruct x as [sx|sx| |sx mx ex], y as [sy|sy| |sy my ey]; try congruence;
    try (destruct sx, sy; reflexivity).
  cbn [SpecFloat.valid_binary] in Vx, Vy. unfold SF64sub, SFsub.
  pose proof (bounded_canonical _ _ Vx) as (Hex & _).
  pose proof (bounded_canonical _ _ Vy) as (Hey & _).
  rewrite binary_normalize_sign by lia.
  pose proof (aligned_compare sx mx ex sy my ey Vx Vy) as H.
  rewrite (Z.min_comm ey ex).
  assert (Hn : S754_finite sx mx ex <> S754_nan) by discriminate.
  assert (Hn' : S754_finite sy my ey <> S754_nan) by discriminate.
  pose proof (SFltb_rank _ _ Hn Hn') as H'.
  apply eq_true_iff_eq. rewrite H', <- H, Z.ltb_lt. lia.
Qed.

(** The sign of a difference: for two numbers that are not [NaN],
    [y - x] is positive exactly when [x < y]. *)
Lemma sub_pos (x y : number) :
  is_nan x = false -> is_nan y = false -> (0 <? y - x)%float = (x <? y)%float.
Proof.
  intros Hx Hy. apply is_nan_spec in Hx, Hy.
  rewrite !FloatAxioms.ltb_spec, sub_spec.
  change (Prim2SF 0) with (S754_zero false).
  apply SFsub_pos; auto using Prim2SF_valid.
Qed.

End Difference.

Section Exact.

Lemma shr_fexp_canonical (m : positive) (e : Z) :
  canonical_mantissa prec emax m e = true ->
  shr_fexp prec emax (Z.pos m) e loc_Exact
  = ({| shr_m := Z.pos m; shr_r := false; shr_s := false |}, e).
Proof.
  unfold canonical_mantissa. intros Hc. apply Z.eqb_eq in Hc.
  unfold shr_fexp. cbn [Zdigits2]. rewrite Hc, Z.sub_diag. reflexivity.
Qed.

(** Rounding a mantissa that is already canonical changes nothing. *)
Lemma binary_round_aux_canonical (s : bool) (m : positive) (e : Z) :
  SpecFloat.bounded prec emax m e = true ->
  binary_round_aux prec emax s (Z.pos m) e loc_Exact = S754_finite s m e.
Proof.
  unfold SpecFloat.bounded. intros Hb. apply andb_prop in Hb as [Hc He].
  unfold binary_round_aux. rewrite (shr_fexp_canonical m e Hc).
  cbn [shr_m loc_of_shr_record round_nearest_even].
  rewrite (shr_fexp_canonical m e Hc). cbn [shr_m]. now rewrite He.
Qed.

Lemma div_eucl_mul (a b : Z) : b <> 0 -> Z.div_eucl (a * b) b = (a, 0).
Proof.
  intros Hb. pose proof (Z.div_mul a b Hb) as Hq. pose proof (Z.mod_mul a b Hb) as Hr.
  unfold Z.div, Z.modulo in *. destruct (Z.div_eucl (a * b) b) as [q r].
  simpl in *. congruence.
Qed.

Lemma SFdiv_one (x : spec_float) :
  valid_binary x = true -> SF64div x (Prim2SF 1) = x.
Proof.
  change (Prim2SF 1) with (S754_finite false 4503599627370496 (-52)).
  destruct x as [s|s| |s m e]; try reflexivity; try (destruct s; reflexivity).
  cbn [SpecFloat.valid_binary]. intros Hb.
  pose proof Hb as Hb'.
  unfold SpecFloat.bounded, canonical_mantissa in Hb.
  apply andb_prop in Hb as [Hc He]. apply Z.eqb_eq in Hc. apply Z.leb_le in He.
  unfold SF64div, SFdiv, SFdiv_core_binary. rewrite xorb_false_r.
  change (Zdigits2 (Z.pos 4503599627370496)) with 53. cbn [Zdigits2].
  set (d := Z.pos (digits2_pos m)) in *.
  replace (d + e - (53 + -52)) with (d + e - 1) by lia.
  unfold fexp in *. change (SpecFloat.emin prec emax) with emin in *.
  change IntDef.Z.div_eucl with Z.div_eucl.
  destruct (Z.eq_dec e emin) as [Hemin | Hemin].
  - (* at the smallest exponent the quotient is the mantissa itself *)
    replace (Z.min (Z.max (d + e - 1 - prec) emin) (e - -52)) with e by lia.
    replace (e - -52 - e) with 52 by lia.
    rewrite Z.shiftl_mul_pow2 by lia.
    change (2 ^ 52) with 4503599627370496. rewrite div_eucl_mul by lia.
    change (new_location 4503599627370496 0) with loc_Exact.
    now apply binary_round_aux_canonical.
  - (* above it the quotient is twice the mantissa, which the rounding halves *)
    replace (Z.min (Z.max (d + e - 1 - prec) emin) (e - -52)) with (e - 1) by lia.
    replace (e - -52 - (e - 1)) with 53 by lia.
    rewrite Z.shiftl_mul_pow2 by lia.
    change (2 ^ 53) with (2 * 4503599627370496).
    rewrite Z.mul_assoc, div_eucl_mul by lia.
    change (new_location 4503599627370496 0) with loc_Exact.
    replace (Z.pos m * 2) with (Z.pos m~0) by lia.
    unfold binary_round_aux.
    assert (Hs : shr_fexp prec emax (Z.pos m~0) (e - 1) loc_Exact
                 = ({| shr_m := Z.pos m; shr_r := false; shr_s := false |}, e)).
    { unfold shr_fexp, fexp. cbn [Zdigits2 digits2_pos].
      change (SpecFloat.emin prec emax) with emin.
      rewrite Pos2Z.inj_succ. fold d.
      replace (Z.max (Z.succ d + (e - 1) - prec) emin - (e - 1)) with 1 by lia.
      unfold shr. cbn [SpecFloat.iter_pos shr_record_of_loc shr_1 orb].
      f_equal. lia. }
    rewrite Hs. cbn [shr_m loc_of_shr_record round_nearest_even].
    unfold SpecFloat.bounded in Hb'. apply andb_prop in Hb' as [Hc' He'].
    rewrite (shr_fexp_canonical m e Hc'). cbn [shr_m]. now rewrite He'.
Qed.

(** Dividing by one is exact: [x / 1] is [x]. *)
Lemma div_1_r (x : number) : (x / 1)%float = x.
Proof.
  apply Prim2SF_inj. rewrite div_spec. apply SFdiv_one, Prim2SF_valid.
Qed.

(** Adding to zero is exact: [0 + x] is [x], a negative zero apart, which
    gives the positive one. *)
Lemma add_0_l (x : number) : Prim2SF x <> S754_zero true -> (0 + x)%float = x.
Proof.
  intros Hx. apply Prim2SF_inj. rewrite add_spec.
  change (Prim2SF 0) with (S754_zero false).
  destruct (Prim2SF x) as [[]|s| |s m e]; try reflexivity. congruence.
Qed.

End Exact.

(** ** The age aggregator *)

(** The value of [getSmoothedAge] on a non-empty history. *)
Lemma getSmoothedAge_value (xs : list number) :
  xs <> [] -> getSmoothedAge xs = Some (round1 (mean xs)).
Proof. destruct xs; [congruence | reflexivity]. Qed.

(** What [Math.round] returns for a finite number of value [v] that does not
    round to zero: the number nearest to the integer nearest to [v]. *)
Lemma round_nearest (x : number) (v : Q) :
  toQ x = Some v -> nearest v <> 0 -> round x = ofZ (nearest v).
Proof.
  intros Hv Hz. unfold round. rewrite Hv. fold (nearest v).
  destruct (Z.eqb_spec (nearest v) 0); [contradiction | reflexivity].
Qed.

(** C5, as amended. For a non-empty list of ages [getSmoothedAge] returns
    [Math.round(m * 10) / 10], where [m] is the binary64 mean of the list:
    the ages added one by one from 0, the sum divided by their number, each
    operation rounding to binary64. When the product [m * 10] is finite, of
    value [v], and does not round to zero, the result is the binary64
    quotient by 10 of the integer nearest to [v]. For the empty list the
    result is [null]. *)
Theorem getSmoothedAge_mean (xs : list number) :
  xs <> [] ->
  getSmoothedAge xs = Some (round (mean xs * 10) / 10)%float
  /\ (forall v : Q,
        toQ (mean xs * 10)%float = Some v -> nearest v <> 0 ->
        getSmoothedAge xs = Some (ofZ (nearest v) / 10)%float)
  /\ getSmoothedAge [] = None.
Proof.
  intros Hne. split; [|split].
  - now apply getSmoothedAge_value.
  - intros v Hv Hz. rewrite (getSmoothedAge_value xs Hne). unfold round1.
    now rewrite (round_nearest _ v Hv Hz).
  - reflexivity.
Qed.

Lemma getSmoothedAge_mean_witness :
  getSmoothedAge [30; 32; 31]%float = Some (ofZ 310 / 10)%float.
Proof.
  apply (proj1 (proj2 (getSmoothedAge_mean [30; 32; 31]%float ltac:(discriminate)))
           (inject_Z 310)).
  - vm_compute. reflexivity.
  - vm_compute. discriminate.
Defined.

(** The specification's example: ages 30, 32, 31 smooth to 31.0. *)
Example getSmoothedAge_example :
  getSmoothedAge [30; 32; 31]%float = Some 31%float.
Proof. vm_compute. reflexivity. Qed.

(** C5, as stated, fails: the mean of 39.8, 22.8, 18.1 and 29.1 is 27.45,
    which rounds to 27.5, whether the ages are read as these decimals or as
    the binary64 numbers nearest to them; [getSmoothedAge] returns 27.4,
    because the binary64 sum is 109.79999999999998. *)
Lemma getSmoothedAge_not_exact_mean :
  getSmoothedAge [39.8; 22.8; 18.1; 29.1]%float = Some 27.4%float
  /\ (27.4 <? 27.5)%float = true
  /\ nearest (exactMean [398 # 10; 228 # 10; 181 # 10; 291 # 10] * 10) = 275
  /\ (exists a b c d : Q,
        toQ 39.8 = Some a /\ toQ 22.8 = Some b /\ toQ 18.1 = Some c /\ toQ 29.1 = Some d
        /\ nearest (exactMean [a; b; c; d] * 10) = 275)
  /\ fold_left PrimFloat.add [39.8; 22.8; 18.1; 29.1]%float 0%float
     = 109.79999999999998%float.
Proof.
  split; [vm_compute; reflexivity|]. split; [reflexivity|].
  split; [vm_compute; reflexivity|]. split; [|vm_compute; reflexivity].
  do 4 eexists. repeat (split; [vm_compute; reflexivity|]). vm_compute. reflexivity.
Qed.

(** ** The model of [Array.prototype.sort] *)

Section StableSort.
Context {A : Type} (key : A -> number).
Local Abbreviation desc := (descending key).
Local Abbreviation numeric := (fun a : A => is_nan (key a) = false).

Lemma insert_Permutation (x : A) (l : list A) : insert desc x l ≡ₚ x :: l.
Proof.
  induction l as [|y l IH]; simpl; [reflexivity|].
  destruct (0 <? desc x y)%float; [|reflexivity].
  rewrite IH. apply Permutation_swap.
Qed.

Lemma sort_Permutation (l : list A) : sort desc l ≡ₚ l.
Proof.
  induction l as [|x l IH]; simpl; [reflexivity|].
  now rewrite insert_Permutation, IH.
Qed.

Lemma sort_numeric (l : list A) : Forall numeric l -> Forall numeric (sort desc l).
Proof. intros H. now rewrite sort_Permutation. Qed.

(** The comparator is positive exactly when its first argument has the
    smaller key. *)
Lemma desc_pos (a b : A) :
  numeric a -> numeric b -> (0 <? desc a b)%float = (key a <? key b)%float.
Proof. intros Ha Hb. now apply sub_pos. Qed.

Lemma insert_sorted (x : A) (l : list A) :
  numeric x -> Forall numeric l ->
  StronglySorted (fun a b => (key b <=? key a)%float = true) l ->
  StronglySorted (fun a b => (key b <=? key a)%float = true) (insert desc x l).
Proof.
  intros Hx. induction l as [|y l IH]; intros Hn Hs; simpl; [repeat constructor|].
  apply Forall_cons in Hn as [Hy Hn]. apply StronglySorted_cons in Hs as [Hle Hs].
  rewrite desc_pos by assumption.
  destruct (key x <? key y)%float eqn:E.
  - apply StronglySorted_cons. split; [|now apply IH].
    rewrite insert_Permutation. apply Forall_cons. split; [float_order | exact Hle].
  - apply StronglySorted_cons. split.
    + apply Forall_cons. split; [float_order|].
      rewrite Forall_forall in *. intros z Hz.
      pose proof (Hle z Hz) as Hzy. pose proof (Hn z Hz) as Hnz. cbv beta in *.
      float_order.
    + apply StronglySorted_cons. now split.
Qed.

(** On keys that are numbers the sorted copy is in descending order. *)
Lemma sort_sorted (l : list A) :
  Forall numeric l ->
  StronglySorted (fun a b => (key b <=? key a)%float = true) (sort desc l).
Proof.
  induction l as [|x l IH]; intros Hn; simpl; [constructor|].
  apply Forall_cons in Hn as [Hx Hn].
  apply insert_sorted; [exact Hx | now apply sort_numeric | now apply IH].
Qed.

(** And the sort is stable: the elements of any one key keep their order. *)
Lemma filter_insert (k : number) (x : A) (l : list A) :
  numeric x -> Forall numeric l ->
  List.filter (fun a => (key a =? k)%float) (insert desc x l)
  = List.filter (fun a => (key a =? k)%float) (x :: l).
Proof.
  intros Hx. induction l as [|y l IH]; intros Hn; [reflexivity|]. cbn [insert].
  apply Forall_cons in Hn as [Hy Hn]. rewrite desc_pos by assumption.
  destruct (key x <? key y)%float eqn:E; [|reflexivity].
  cbn [List.filter] in *. rewrite (IH Hn).
  destruct (key x =? k)%float eqn:Ex, (key y =? k)%float eqn:Ey; try reflexivity.
  destruct (eqb_numeric _ _ Ex) as [_ Hk]. float_order.
Qed.

Lemma sort_stable (k : number) (l : list A) :
  Forall numeric l ->
  List.filter (fun a => (key a =? k)%float) (sort desc l)
  = List.filter (fun a => (key a =? k)%float) l.
Proof.
  induction l as [|x l IH]; intros Hn; [reflexivity|].
  apply Forall_cons in Hn as [Hx Hn].
  change (sort desc (x :: l)) with (insert desc x (sort desc l)).
  rewrite filter_insert by (assumption || now apply sort_numeric).
  cbn [List.filter]. now rewrite IH.
Qed.

Lemma head_insert (x : A) (l : list A) :
  numeric x -> Forall numeric l ->
  head (insert desc x l)
  = match head l with
    | Some y => if (key x <? key y)%float then Some y else Some x
    | None => Some x
    end.
Proof.
  intros Hx Hn. destruct l as [|y l]; simpl; [reflexivity|].
  apply Forall_cons in Hn as [Hy _]. rewrite desc_pos by assumption.
  now destruct (key x <? key y)%float.
Qed.

(** The first element of the sorted copy is the first element of the
    original list whose key is the largest. *)
Lemma head_sort_first_max (l : list A) :
  l <> [] -> Forall numeric l ->
  exists (i : nat) (t : A),
    head (sort desc l) = Some t
    /\ l !! i = Some t
    /\ (forall j c, l !! j = Some c -> (key c <=? key t)%float = true)
    /\ (forall j c, l !! j = Some c -> (j < i)%nat -> (key c <? key t)%float = true).
Proof.
  induction l as [|x l IH]; [congruence|]. intros _ Hn.
  apply Forall_cons in Hn as [Hx Hn].
  change (sort desc (x :: l)) with (insert desc x (sort desc l)).
  rewrite head_insert by (assumption || now apply sort_numeric).
  destruct l as [|y l].
  - exists 0%nat, x. simpl. repeat split; [| intros; lia].
    intros [|j] c Hc; simpl in Hc; [|discriminate].
    injection Hc as <-. float_order.
  - destruct IH as (i & t & Hh & Hi & Hmax & Hfirst); [congruence | exact Hn |].
    rewrite Hh.
    assert (Ht : numeric t).
    { rewrite Forall_forall in Hn. apply Hn. eapply list_elem_of_lookup_2, Hi. }
    destruct (key x <? key t)%float eqn:E.
    + exists (S i), t. repeat split; [exact Hi | |].
      * intros [|j] c Hc; simpl in Hc.
        -- injection Hc as <-. float_order.
        -- eapply Hmax; exact Hc.
      * intros [|j] c Hc Hj; simpl in Hc.
        -- now injection Hc as <-.
        -- eapply Hfirst; [exact Hc | lia].
    + exists 0%nat, x. repeat split; [| intros; lia].
      intros [|j] c Hc; simpl in Hc.
      * injection Hc as <-. float_order.
      * pose proof (Hmax j c Hc) as Hct.
        assert (Hc' : numeric c).
        { rewrite Forall_forall in Hn. apply Hn. eapply list_elem_of_lookup_2, Hc. }
        cbv beta in *. float_order.
Qed.

End StableSort.

(** ** The detection loop *)

Section Loop.
Variable config : SmoothConfig.

(** The candidate the loop selects, when every confidence is a number: the
    first of the strongest ones. *)
Lemma top_candidate (candidates : list Candidate) :
  candidates <> [] ->
  Forall (fun c => is_nan (confidence c) = false) candidates ->
  exists (i : nat) (top : Candidate),
    head (sort byScoreDesc candidates) = Some top
    /\ firstStrongest candidates i top.
Proof.
  intros Hne Hn.
  destruct (head_sort_first_max confidence candidates Hne Hn)
    as (i & top & Hh & Hi & Hmax & Hfirst).
  exists i, top. split; [exact Hh | now repeat split].
Qed.

Lemma detectionLoop_face (st : State) (f : FaceResult) (fs : list FaceResult) :
  detectionActive st = true ->
  historyBuffers (detectionLoop config (withFaces (f :: fs)) st)
  = {| emotion := updateEmotion config f (emotion (historyBuffers st));
       hgender := updateGender config f (hgender (historyBuffers st));
       age := updateAge config f (age (historyBuffers st)) |}.
Proof. intros Ha. unfold detectionLoop, withFaces. now rewrite Ha. Qed.

Lemma detectionLoop_no_face (st : State) (h : Human) :
  detects h = false ->
  historyBuffers (detectionLoop config (Some h) st) = historyBuffers st.
Proof.
  intros Hd. unfold detectionLoop, detects in *.
  destruct (detectionActive st); [|reflexivity].
  destruct (result h) as [[[[|f fs]|]]|]; try reflexivity. discriminate.
Qed.

(** The buffers and the running flag after a frame depend on the buffers
    and the running flag before it only. *)
Lemma detectionLoop_congruence (frame : option Human) (s1 s2 : State) :
  detectionActive s1 = detectionActive s2 ->
  historyBuffers s1 = historyBuffers s2 ->
  detectionActive (detectionLoop config frame s1)
  = detectionActive (detectionLoop config frame s2)
  /\ historyBuffers (detectionLoop config frame s1)
     = historyBuffers (detectionLoop config frame s2).
Proof.
  intros Ha Hb. unfold detectionLoop. rewrite <- Ha.
  destruct (detectionActive s1) eqn:E1; [|split; [congruence | exact Hb]].
  destruct frame as [h|]; [|split; [congruence | exact Hb]].
  destruct (result h) as [[[[|f fs]|]]|]; simpl; rewrite ?Hb; now split.
Qed.

Lemma run_congruence (frames : list (option Human)) (s1 s2 : State) :
  detectionActive s1 = detectionActive s2 ->
  historyBuffers s1 = historyBuffers s2 ->
  historyBuffers (run config frames s1) = historyBuffers (run config frames s2).
Proof.
  revert s1 s2. induction frames as [|frame frames IH]; intros s1 s2 Ha Hb.
  - exact Hb.
  - destruct (detectionLoop_congruence frame s1 s2 Ha Hb) as [Ha' Hb'].
    simpl. now apply IH.
Qed.

(** What [updateEmotion] does to the buffer: nothing, or one push of a
    candidate whose confidence passes the threshold. *)
Lemma updateEmotion_cases (f : FaceResult) (buf : list EmotionData) :
  updateEmotion config f buf = buf
  \/ exists top,
       (minConfidence config <=? orZero (cscore top))%float = true
       /\ updateEmotion config f buf
          = pushWithLimit buf
              {| name := cemotion top; score := cscore top |}
              (windowSize config).
Proof.
  unfold updateEmotion. destruct (f_emotion f) as [candidates|]; [|now left].
  destruct (head _) as [top|]; [|now left].
  destruct (_ <=? _)%float eqn:E; [|now left].
  right. exists top. split; [exact E | reflexivity].
Qed.

(** C6. On a running session, a frame without a detected face sets the face
    data to absent and leaves the three history buffers as they were; after
    the frames that follow, the buffers are those the session would have had
    without the gap. *)
Theorem zero_detection_frame_keeps_history (st : State) (h : Human) :
  detectionActive st = true ->
  detects h = false ->
  let st' := detectionLoop config (Some h) st in
  faceData st' = None
  /\ historyBuffers st' = historyBuffers st
  /\ emotion (historyBuffers st') = emotion (historyBuffers st)
  /\ hgender (historyBuffers st') = hgender (historyBuffers st)
  /\ age (historyBuffers st') = age (historyBuffers st)
  /\ forall rest : list (option Human),
       historyBuffers (run config (Some h :: rest) st)
       = historyBuffers (run config rest st).
Proof.
  intros Ha Hd st'.
  assert (Hb : historyBuffers st' = historyBuffers st)
    by now apply detectionLoop_no_face.
  assert (Hact : detectionActive st' = true).
  { subst st'. unfold detectionLoop. rewrite Ha.
    destruct (result h) as [[[[|f fs]|]]|]; reflexivity. }
  split.
  - subst st'. unfold detectionLoop, detects in *. rewrite Ha.
    destruct (result h) as [[[[|f fs]|]]|]; try reflexivity. discriminate.
  - split; [exact Hb|]. rewrite Hb. repeat split.
    intros rest. change (run config (Some h :: rest) st) with (run config rest st').
    apply run_congruence; [congruence | exact Hb].
Qed.

(** C3. On a running session and a frame with a detected face, the emotion
    buffer changes by at most one push. Without a candidate list, or with an
    empty one, it is unchanged. Otherwise, the confidences being numbers (a
    missing score counting as 0), the loop selects the candidate of highest
    confidence, the earliest one in the list among equals. When the
    confidence of that candidate is at least [minConfidence] the buffer
    after the frame is the buffer before it with that candidate's label and
    score at its end, less its oldest item when that makes it longer than
    the window; when it is below, the buffer is the one before the frame.
    The emotion shown for the frame is the smoothed value of the buffer
    after the frame, so an unchanged buffer shows the value it did. *)
Theorem emotion_candidate_selection (st : State) (f : FaceResult) (fs : list FaceResult) :
  detectionActive st = true ->
  let buf := emotion (historyBuffers st) in
  let st' := detectionLoop config (withFaces (f :: fs)) st in
  let buf' := emotion (historyBuffers st') in
  (f_emotion f = None \/ f_emotion f = Some [] -> buf' = buf)
  /\ (length buf' <= length buf + 1)%nat
  /\ d_emotion <$> faceData st' = Some (getSmoothedEmotion buf')
  /\ forall candidates,
       f_emotion f = Some candidates -> candidates <> [] ->
       Forall (fun c => is_nan (confidence c) = false) candidates ->
       exists (i : nat) (top : Candidate),
         firstStrongest candidates i top
         /\ buf'
            = if (minConfidence config <=? confidence top)%float
              then
                if Z.of_nat (length buf) + 1 >? windowSize config
                then tail (buf ++ [ {| name := cemotion top; score := cscore top |} ])
                else buf ++ [ {| name := cemotion top; score := cscore top |} ]
              else buf.
Proof.
  intros Ha buf st' buf'. subst buf buf' st'.
  split; [|split; [|split]].
  - rewrite detectionLoop_face by assumption.
    cbn [emotion]. unfold updateEmotion. intros [-> | ->]; reflexivity.
  - rewrite detectionLoop_face by assumption. cbn [emotion].
    destruct (updateEmotion_cases f (emotion (historyBuffers st))) as [-> | (top & _ & ->)];
      [lia|].
    rewrite pushWithLimit_length. destruct (_ >? _); lia.
  - unfold detectionLoop, withFaces. rewrite Ha. reflexivity.
  - rewrite detectionLoop_face by assumption.
    cbn [emotion]. unfold updateEmotion.
    intros candidates -> Hne Hn.
    destruct (top_candidate candidates Hne Hn) as (i & top & Hh & Hsel).
    exists i, top. split; [exact Hsel|]. rewrite Hh.
    change (orZero (cscore top)) with (confidence top).
    destruct (_ <=? _)%float; [|reflexivity].
    unfold pushWithLimit. rewrite length_app. simpl length.
    now replace (Z.of_nat (length (emotion (historyBuffers st)) + 1))
      with (Z.of_nat (length (emotion (historyBuffers st))) + 1) by lia.
Qed.

(** C8, as amended. On a running session and a frame with a detected face:
    without a numeric [genderScore] the gender buffer is unchanged; and when
    [minConfidence] is positive no candidate without a score enters the
    emotion buffer: the buffer is unchanged when the selected candidate has
    no score, and whatever is pushed is a candidate of the list with its
    score. *)
Theorem missing_confidence_is_skipped (st : State) (f : FaceResult) (fs : list FaceResult) :
  detectionActive st = true ->
  let b := historyBuffers st in
  let b' := historyBuffers (detectionLoop config (withFaces (f :: fs)) st) in
  (f_genderScore f = None -> hgender b' = hgender b)
  /\ ((0 <? minConfidence config)%float = true ->
      (forall candidates top,
          f_emotion f = Some candidates ->
          head (sort byScoreDesc candidates) = Some top ->
          cscore top = Null \/ cscore top = Undefined -> emotion b' = emotion b)
      /\ (emotion b' = emotion b
          \/ exists candidates c x,
               f_emotion f = Some candidates /\ c ∈ candidates
               /\ cscore c = Num x
               /\ emotion b'
                  = pushWithLimit (emotion b) {| name := cemotion c; score := Num x |}
                      (windowSize config))).
Proof.
  intros Ha b b'. subst b b'. rewrite detectionLoop_face by assumption.
  cbn [emotion hgender]. split.
  - intros Hg. unfold updateGender. rewrite Hg. now destruct (f_gender f).
  - intros Hpos. destruct (ltb_numeric _ _ Hpos) as [H0 Hm].
    assert (Hzero : (minConfidence config <=? 0)%float = false) by float_order.
    unfold updateEmotion. split.
    + intros candidates top -> -> Hs.
      destruct Hs as [-> | ->]; cbn [orZero]; now rewrite Hzero.
    + destruct (f_emotion f) as [candidates|]; [|now left].
      destruct (head (sort byScoreDesc candidates)) as [top|] eqn:Hh; [|now left].
      destruct (minConfidence config <=? orZero (cscore top))%float eqn:E; [|now left].
      destruct (cscore top) as [x| |] eqn:Hs; cbn [orZero] in E; try congruence.
      right. exists candidates, top, x. repeat split; try assumption.
      apply head_Some_elem_of in Hh.
      now rewrite (sort_Permutation (fun c => orZero (cscore c))) in Hh.
Qed.

End Loop.

Lemma zero_detection_frame_keeps_history_witness :
  faceData (detectionLoop DEFAULT_CONFIG noFace Sample.warm) = None
  /\ historyBuffers (detectionLoop DEFAULT_CONFIG noFace Sample.warm)
     = historyBuffers Sample.warm.
Proof.
  pose proof (zero_detection_frame_keeps_history DEFAULT_CONFIG Sample.warm
                {| result := Some {| face := Some [] |} |} eq_refl eq_refl) as H.
  split; [exact (proj1 H) | exact (proj1 (proj2 H))].
Defined.

(** C3 on the sample frame, whose candidates are "sad" at 0.2, "happy" at
    0.7 and "neutral" at 0.7: under the default configuration the buffer,
    which held "happy" at 0.9, holds "happy" at 0.7 after the frame. *)
Lemma emotion_candidate_selection_witness :
  emotion (historyBuffers
             (detectionLoop DEFAULT_CONFIG (withFaces [Sample.threeCandidates]) Sample.warm))
  = [ {| name := "happy"; score := Num 0.7 |} ].
Proof.
  destruct (proj2 (proj2 (proj2 (emotion_candidate_selection DEFAULT_CONFIG Sample.warm
                                   Sample.threeCandidates [] eq_refl)))
              _ eq_refl ltac:(discriminate) ltac:(repeat constructor))
    as (i & top & (Hi & Hmax & Hfirst) & Hbuf).
  destruct i as [|[|[|i]]]; simpl in Hi; try discriminate; injection Hi as <-.
  - specialize (Hmax 1%nat _ eq_refl). vm_compute in Hmax. discriminate.
  - rewrite Hbuf. vm_compute. reflexivity.
  - specialize (Hfirst 1%nat _ eq_refl ltac:(lia)). vm_compute in Hfirst. discriminate.
Defined.

(** The same on a window of two frames: the candidate is added behind the
    item the buffer held. *)
Example emotion_candidate_selection_sample :
  emotion (historyBuffers
             (detectionLoop Sample.twoFrames (withFaces [Sample.threeCandidates]) Sample.warm))
  = [ {| name := "happy"; score := Num 0.9 |}; {| name := "happy"; score := Num 0.7 |} ].
Proof. vm_compute. reflexivity. Qed.

(** The specification's example: a candidate of confidence 0.2 under the
    threshold 0.3 is not pushed, and the emotion shown stays the one the
    buffer held. *)
Example weak_candidate_is_filtered :
  emotion (historyBuffers
             (detectionLoop DEFAULT_CONFIG (withFaces [Sample.weak]) Sample.warm))
  = emotion (historyBuffers Sample.warm)
  /\ d_emotion <$> faceData (detectionLoop DEFAULT_CONFIG (withFaces [Sample.weak]) Sample.warm)
     = Some (Some {| name := "happy"; score := Num 90 |}).
Proof. split; vm_compute; reflexivity. Qed.

(** A missed frame between two detections: the buffers end as if the missed
    frame had not been there. *)
Example gap_between_detections :
  historyBuffers
    (run DEFAULT_CONFIG [noFace; withFaces [Sample.threeCandidates]] Sample.warm)
  = historyBuffers
      (run DEFAULT_CONFIG [withFaces [Sample.threeCandidates]] Sample.warm).
Proof. vm_compute. reflexivity. Qed.

(** C8, as stated, fails: with [minConfidence = 0] a candidate that has no
    score is selected and pushed, and the emotion buffer changes. The item
    pushed holds [undefined], and the emotion shown has the score [NaN]. *)
Lemma scoreless_candidate_enters_history :
  f_emotion Sample.scoreless = Some [ {| cscore := Undefined; cemotion := "happy" |} ]
  /\ emotion (historyBuffers
                (detectionLoop Sample.acceptAll (withFaces [Sample.scoreless]) Sample.warm))
     = [ {| name := "happy"; score := Undefined |} ]
  /\ emotion (historyBuffers
                (detectionLoop Sample.acceptAll (withFaces [Sample.scoreless]) Sample.warm))
     <> emotion (historyBuffers Sample.warm)
  /\ d_emotion <$> faceData
                     (detectionLoop Sample.acceptAll (withFaces [Sample.scoreless]) Sample.warm)
     = Some (Some {| name := "happy"; score := Num nan |}).
Proof.
  split; [reflexivity|]. split; [vm_compute; reflexivity|].
  split; [vm_compute; discriminate | vm_compute; reflexivity].
Qed.

(** A score that is [null] is pushed as well; it adds as 0, and the emotion
    shown has the score 0. *)
Example null_score_enters_history :
  let f := Sample.bareFace (Some [ {| cscore := Null; cemotion := "happy" |} ]) None None in
  emotion (historyBuffers (detectionLoop Sample.acceptAll (withFaces [f]) Sample.warm))
  = [ {| name := "happy"; score := Null |} ]
  /\ d_emotion <$> faceData (detectionLoop Sample.acceptAll (withFaces [f]) Sample.warm)
     = Some (Some {| name := "happy"; score := Num 0 |}).
Proof. split; vm_compute; reflexivity. Qed.

Lemma missing_confidence_is_skipped_witness :
  hgender (historyBuffers
             (detectionLoop DEFAULT_CONFIG (withFaces [Sample.scoreless]) Sample.warm))
  = hgender (historyBuffers Sample.warm)
  /\ emotion (historyBuffers
                (detectionLoop DEFAULT_CONFIG (withFaces [Sample.scoreless]) Sample.warm))
     = emotion (historyBuffers Sample.warm).
Proof.
  pose proof (missing_confidence_is_skipped DEFAULT_CONFIG Sample.warm
                Sample.scoreless [] eq_refl) as H.
  split.
  - exact (proj1 H eq_refl).
  - exact (proj1 (proj2 H ltac:(reflexivity)) _ _ eq_refl eq_refl ltac:(now right)).
Defined.

(** ** Counting a history *)

Section Counting.
Implicit Types (obs : list Observation) (o : Observation) (k l w : string).

Lemma count_of_app k obs1 obs2 :
  count_of k (obs1 ++ obs2) = count_of k obs1 + count_of k obs2.
Proof. induction obs1 as [|o obs1 IH]; simpl; [reflexivity | lia]. Qed.

Lemma sum_of_snoc k obs o :
  sum_of k (obs ++ [o])
  = if String.eqb o.1 k then (sum_of k obs + o.2)%float else sum_of k obs.
Proof. unfold sum_of. now rewrite fold_left_app. Qed.

Lemma count_of_nonneg k obs : 0 <= count_of k obs.
Proof. induction obs as [|o obs IH]; simpl; [lia|]. destruct (String.eqb o.1 k); lia. Qed.

(** The sum of a label that does not occur is the 0 it starts from. *)
Lemma sum_of_absent k obs : count_of k obs = 0 -> sum_of k obs = 0%float.
Proof.
  unfold sum_of. generalize 0%float.
  induction obs as [|o obs IH]; intros t; simpl; [reflexivity|].
  pose proof (count_of_nonneg k obs). destruct (String.eqb o.1 k); [lia|].
  intros H0. apply IH. lia.
Qed.

Lemma count_of_pos_elem k obs : 0 < count_of k obs <-> k ∈ obs.*1.
Proof.
  induction obs as [|o obs IH]; simpl.
  - rewrite elem_of_nil. lia.
  - rewrite elem_of_cons, <- IH. pose proof (count_of_nonneg k obs).
    destruct (String.eqb_spec o.1 k) as [E|E]; split.
    + intros _. left. now symmetry.
    + lia.
    + intros H1. right. lia.
    + intros [E'|H1]; [congruence | lia].
Qed.

Lemma first_pos_present k obs1 obs2 :
  0 < count_of k obs1 -> first_pos k (obs1 ++ obs2) = first_pos k obs1.
Proof.
  induction obs1 as [|o obs1 IH]; simpl; [lia|].
  destruct (String.eqb o.1 k); [reflexivity|]. intros H. f_equal. apply IH. lia.
Qed.

Lemma first_pos_lt k obs : 0 < count_of k obs -> (first_pos k obs < length obs)%nat.
Proof.
  induction obs as [|o obs IH]; simpl; [lia|].
  destruct (String.eqb o.1 k); [lia|]. intros H.
  assert (first_pos k obs < length obs)%nat by (apply IH; lia). lia.
Qed.

Lemma first_pos_absent k obs1 obs2 :
  count_of k obs1 = 0 ->
  first_pos k (obs1 ++ obs2) = (length obs1 + first_pos k obs2)%nat.
Proof.
  induction obs1 as [|o obs1 IH]; simpl; [reflexivity|].
  pose proof (count_of_nonneg k obs1).
  destruct (String.eqb o.1 k); [lia|]. intros H0. f_equal. apply IH. lia.
Qed.

End Counting.

(** ** The insertion-ordered map *)

Section InsertionOrder.
Context {V : Type}.
Implicit Types (m : list (string * V)) (k : string) (v : V).

Lemma Map_get_None m k : Map_get m k = None -> k ∉ m.*1.
Proof.
  induction m as [|[k' v'] m IH]; simpl; [intros _; apply not_elem_of_nil|].
  destruct (String.eqb_spec k' k) as [E|E]; [discriminate|].
  intros H. apply not_elem_of_cons. split; [congruence | now apply IH].
Qed.

Lemma Map_get_Some m k v :
  Map_get m k = Some v -> exists m1 m2, m = m1 ++ (k, v) :: m2 /\ k ∉ m1.*1.
Proof.
  induction m as [|[k' v'] m IH]; simpl; [discriminate|].
  destruct (String.eqb_spec k' k) as [E|E].
  - intros [= ->]. subst k'. exists [], m. split; [reflexivity | apply not_elem_of_nil].
  - intros H. destruct (IH H) as (m1 & m2 & -> & Hn).
    exists ((k', v') :: m1), m2. split; [reflexivity|].
    simpl. apply not_elem_of_cons. split; [congruence | exact Hn].
Qed.

Lemma Map_set_absent m k v : k ∉ m.*1 -> Map_set m k v = m ++ [(k, v)].
Proof.
  induction m as [|[k' v'] m IH]; simpl; [reflexivity|].
  intros H. apply not_elem_of_cons in H as [Hne Hn].
  destruct (String.eqb_spec k' k) as [E|E]; [congruence|].
  now rewrite IH.
Qed.

Lemma Map_set_present m1 m2 k v0 v :
  k ∉ m1.*1 -> Map_set (m1 ++ (k, v0) :: m2) k v = m1 ++ (k, v) :: m2.
Proof.
  induction m1 as [|[k' v'] m1 IH]; simpl.
  - intros _. now rewrite String.eqb_refl.
  - intros H. apply not_elem_of_cons in H as [Hne Hn].
    destruct (String.eqb_spec k' k) as [E|E]; [congruence|].
    now rewrite IH.
Qed.

Lemma Map_get_middle m1 m2 k v :
  k ∉ m1.*1 -> Map_get (m1 ++ (k, v) :: m2) k = Some v.
Proof.
  induction m1 as [|[k' v'] m1 IH]; simpl.
  - intros _. now rewrite String.eqb_refl.
  - intros H. apply not_elem_of_cons in H as [Hne Hn].
    destruct (String.eqb_spec k' k) as [E|E]; [congruence | now apply IH].
Qed.

End InsertionOrder.

Lemma StronglySorted_weaken {A : Type} (R R' : A -> A -> Prop) (l : list A) :
  (forall a b, a ∈ l -> b ∈ l -> R a b -> R' a b) ->
  StronglySorted R l -> StronglySorted R' l.
Proof.
  induction l as [|x l IH]; intros HR Hs; [constructor|].
  apply StronglySorted_cons in Hs as [Hx Hs]. apply StronglySorted_cons. split.
  - rewrite Forall_forall in *. intros y Hy.
    apply HR; [left | now right | now apply Hx].
  - apply IH; [|exact Hs]. intros a b Ha Hb. apply HR; now right.
Qed.

(** ** The counter of the mode aggregators *)

Section Counter.
Implicit Types (obs : list Observation) (o : Observation) (k l w : string).

Lemma tallyAll_snoc obs o :
  tallyAll (obs ++ [o]) = tally (tallyAll obs) o.1 o.2.
Proof. unfold tallyAll. now rewrite fold_left_app. Qed.

Lemma tallyAll_emotion obs :
  fold_left (fun c e => tally c (name e) (toNumber (score e))) (toEmotion <$> obs) []
  = tallyAll obs.
Proof.
  unfold tallyAll. generalize (@nil (string * Stats)).
  induction obs as [|o obs IH]; intros c; [reflexivity|]. simpl. apply IH.
Qed.

Lemma tallyAll_gender obs :
  fold_left (fun c g => tally c (gender g) (gscore g)) (toGender <$> obs) []
  = tallyAll obs.
Proof.
  unfold tallyAll. generalize (@nil (string * Stats)).
  induction obs as [|o obs IH]; intros c; [reflexivity|]. simpl. apply IH.
Qed.

(** An entry for another label still agrees after one more observation. *)
Lemma agrees_snoc_other obs o e :
  e.1 <> o.1 -> agrees obs e -> agrees (obs ++ [o]) e.
Proof.
  intros Hne (Hpos & Hc & Ht). unfold agrees.
  rewrite count_of_app, sum_of_snoc. simpl.
  destruct (String.eqb_spec o.1 e.1) as [E|E]; [congruence|].
  repeat split; [lia | lia | exact Ht].
Qed.

(** The entry of the observed label, once updated, agrees as well. *)
Lemma agrees_snoc_same obs o prev :
  agrees obs (o.1, prev) ->
  agrees (obs ++ [o])
    (o.1, {| count := count prev + 1; total := (total prev + o.2)%float |}).
Proof.
  intros (Hpos & Hc & Ht). unfold agrees. simpl in *.
  rewrite count_of_app, sum_of_snoc. simpl. rewrite String.eqb_refl.
  repeat split; [lia | lia | now rewrite Ht].
Qed.

Lemma agrees_snoc_new obs o :
  count_of o.1 obs = 0 ->
  agrees (obs ++ [o])
    (o.1, {| count := 0 + 1; total := (0 + o.2)%float |}).
Proof.
  intros H0. unfold agrees. simpl.
  rewrite count_of_app, sum_of_snoc. simpl. rewrite String.eqb_refl.
  repeat split; [lia | lia | now rewrite (sum_of_absent _ _ H0)].
Qed.

Lemma earlier_snoc obs o a b :
  0 < count_of a obs -> 0 < count_of b obs ->
  earlier obs a b -> earlier (obs ++ [o]) a b.
Proof. intros Ha Hb. unfold earlier. now rewrite !first_pos_present. Qed.

(** The counter built from a history: every entry agrees with the history,
    every label that occurs has an entry, and the entries stand in the order
    in which their labels were first encountered. *)
Lemma tallyAll_invariant obs :
  Forall (agrees obs) (tallyAll obs)
  /\ (forall k, 0 < count_of k obs -> k ∈ (tallyAll obs).*1)
  /\ StronglySorted (earlier obs) (tallyAll obs).*1.
Proof.
  induction obs as [|o obs (Hag & Hcov & Hord)] using rev_ind.
  - split; [constructor|]. split; [simpl; lia | constructor].
  - rewrite tallyAll_snoc. unfold tally. set (c := tallyAll obs) in *.
    assert (Hkeys : forall a, a ∈ c.*1 -> 0 < count_of a obs).
    { intros a Ha. apply list_elem_of_fmap in Ha as (e & -> & He).
      rewrite Forall_forall in Hag. now destruct (Hag e He). }
    assert (Hord' : StronglySorted (earlier (obs ++ [o])) c.*1).
    { eapply StronglySorted_weaken; [|exact Hord].
      intros a b Ha Hb. apply earlier_snoc; now apply Hkeys. }
    destruct (Map_get c o.1) as [prev|] eqn:Hget; simpl.
    + destruct (Map_get_Some _ _ _ Hget) as (m1 & m2 & Hc & Hn1).
      rewrite Hc, (Map_set_present m1 m2 _ prev _ Hn1).
      assert (Hk : (m1 ++ (o.1, {| count := count prev + 1;
                                   total := (total prev + o.2)%float |}) :: m2).*1
                   = c.*1).
      { rewrite Hc, !fmap_app. reflexivity. }
      rewrite Hk. split; [|split; [|exact Hord']].
      * rewrite Hc in Hag, Hord. rewrite fmap_app in Hord. simpl in Hord.
        apply Forall_app in Hag as [Hag1 Hag2].
        apply Forall_cons in Hag2 as [Hagk Hag2].
        apply StronglySorted_app in Hord as (_ & _ & Hord2).
        apply StronglySorted_cons in Hord2 as [Hafter _].
        apply Forall_app. split; [|apply Forall_cons; split].
        -- rewrite Forall_forall in *. intros e He.
           apply agrees_snoc_other; [|now apply Hag1].
           intros E. apply Hn1. rewrite <- E. apply list_elem_of_fmap. eauto.
        -- now apply agrees_snoc_same.
        -- rewrite Forall_forall in *. intros e He.
           apply agrees_snoc_other; [|now apply Hag2].
           intros E. assert (Hlt : earlier obs o.1 e.1).
           { rewrite Forall_forall in Hafter. apply Hafter.
             apply list_elem_of_fmap. eauto. }
           unfold earlier in Hlt. rewrite E in Hlt. lia.
      * intros k. rewrite count_of_app. simpl.
        destruct (String.eqb_spec o.1 k) as [E|E].
        -- intros _. subst k. rewrite Hc, fmap_app. apply elem_of_app. right. left.
        -- intros Hp. apply Hcov. lia.
    + apply Map_get_None in Hget.
      rewrite (Map_set_absent _ _ _ Hget).
      assert (H0 : count_of o.1 obs = 0).
      { pose proof (count_of_nonneg o.1 obs).
        destruct (decide (0 < count_of o.1 obs)) as [Hp|Hp]; [|lia].
        destruct Hget. now apply Hcov. }
      split; [|split].
      * apply Forall_app. split.
        -- rewrite Forall_forall in *. intros e He.
           apply agrees_snoc_other; [|now apply Hag].
           intros E. apply Hget. rewrite <- E. apply list_elem_of_fmap. eauto.
        -- apply Forall_singleton. now apply agrees_snoc_new.
      * intros k. rewrite count_of_app, fmap_app. simpl.
        destruct (String.eqb_spec o.1 k) as [E|E].
        -- intros _. subst k. apply elem_of_app. right. left.
        -- intros Hp. apply elem_of_app. left. apply Hcov. lia.
      * rewrite fmap_app. simpl. apply StronglySorted_app.
        split; [|split; [exact Hord' | repeat constructor]].
        intros a b Ha Hb. apply list_elem_of_singleton in Hb as ->.
        unfold earlier.
        rewrite (first_pos_present a) by now apply Hkeys.
        rewrite (first_pos_absent _ _ _ H0). simpl. rewrite String.eqb_refl.
        pose proof (first_pos_lt a obs (Hkeys a Ha)). lia.
Qed.

Lemma agrees_average obs e : agrees obs e -> average e.2 = avg_of e.1 obs.
Proof.
  intros (Hpos & Hc & Ht). unfold average, avg_of. now rewrite Ht, Hc.
Qed.

Lemma tallyAll_nonempty obs : obs <> [] -> tallyAll obs <> [].
Proof.
  destruct obs as [|o obs]; [congruence|]. intros _ Hnil.
  destruct (tallyAll_invariant (o :: obs)) as (_ & Hcov & _).
  assert (Hin : o.1 ∈ (tallyAll (o :: obs)).*1).
  { apply Hcov. apply count_of_pos_elem. simpl. left. }
  rewrite Hnil in Hin. now apply elem_of_nil in Hin.
Qed.

(** The shape of the counter around the entry of a label [w]: the entries
    before it belong to labels first encountered earlier, those after it to
    labels first encountered later, and every other label that occurs in
    the history has its entry on one side or the other. *)
Lemma tallyAll_around obs c1 w v c2 :
  tallyAll obs = c1 ++ (w, v) :: c2 ->
  agrees obs (w, v)
  /\ Forall (agrees obs) c1 /\ Forall (agrees obs) c2
  /\ (w ∉ c1.*1)
  /\ Forall (fun e => earlier obs w e.1) c2
  /\ forall l, l ∈ obs.*1 -> l <> w ->
       exists e, e.1 = l /\ (e ∈ c1 \/ e ∈ c2).
Proof.
  intros Hc. destruct (tallyAll_invariant obs) as (Hag & Hcov & Hord).
  rewrite Hc in Hag, Hcov, Hord.
  apply Forall_app in Hag as [Hag1 Hag2]. apply Forall_cons in Hag2 as [Hagw Hag2].
  rewrite fmap_app in Hord. simpl in Hord.
  apply StronglySorted_app in Hord as (Hbefore & _ & Hord2).
  apply StronglySorted_cons in Hord2 as [Hafter _].
  split; [exact Hagw|]. split; [exact Hag1|]. split; [exact Hag2|]. split; [|split].
  - intros Hin. assert (Hlt : earlier obs w w) by (apply Hbefore; [exact Hin | left]).
    unfold earlier in Hlt. lia.
  - rewrite Forall_forall in Hafter. apply Forall_forall. intros e He.
    apply Hafter. apply list_elem_of_fmap. eauto.
  - intros l Hl Hne. apply count_of_pos_elem in Hl. apply Hcov in Hl.
    apply list_elem_of_fmap in Hl as (e & -> & He).
    exists e. split; [reflexivity|].
    apply elem_of_app in He as [He|He]; [now left|].
    apply elem_of_cons in He as [->|He]; [now destruct Hne | now right].
Qed.

End Counter.

(** ** Choosing the best entry *)

(** The operands of a comparison that holds are numbers. *)
Ltac note_numeric x H :=
  tryif (assert (is_nan x = false) by assumption) then fail else pose proof H.

Ltac float_numeric :=
  repeat match goal with
    | H : (?x <? ?y)%float = true |- _ =>
        first [ note_numeric x (proj1 (ltb_numeric x y H))
              | note_numeric y (proj2 (ltb_numeric x y H)) ]
    | H : (?x <=? ?y)%float = true |- _ =>
        first [ note_numeric x (proj1 (leb_numeric x y H))
              | note_numeric y (proj2 (leb_numeric x y H)) ]
    | H : (?x =? ?y)%float = true |- _ =>
        first [ note_numeric x (proj1 (eqb_numeric x y H))
              | note_numeric y (proj2 (eqb_numeric x y H)) ]
    end.

Section Selection.
Implicit Types (c : list (string * Stats)) (v : Stats).

Lemma below_trans v1 v2 v3 : below v1 v2 -> below v2 v3 -> below v1 v3.
Proof.
  unfold below. intros [H1 | [H1 H1']] [H2 | [H2 H2']];
    [left; lia | left; lia | left; lia | right; split; [lia|]].
  float_numeric. float_order.
Qed.

Lemma notAbove_below v1 v2 v3 :
  is_nan (average v1) = false -> notAbove v1 v2 -> below v2 v3 -> below v1 v3.
Proof.
  unfold notAbove, below. intros Hn [H1 | [H1 H1']] [H2 | [H2 H2']];
    [left; lia | left; lia | left; lia | right; split; [lia|]].
  float_numeric. float_order.
Qed.

(** What [emotionVisit] decides, in terms of the two orders. *)
Lemma emotionVisit_spec (b : BestEmotion) k v v0 :
  bestCount b = count v0 -> bestAvg b = average v0 ->
  (below v0 v
   /\ emotionVisit b (k, v)
      = {| bestName := Some k; bestCount := count v; bestAvg := average v |})
  \/ (notAbove v v0 /\ emotionVisit b (k, v) = b).
Proof.
  intros Hc Ha. unfold emotionVisit. fold (average v). rewrite Hc, Ha.
  destruct (Z.gtb_spec (count v) (count v0)) as [Hgt|Hle]; cbn [orb andb].
  - left. split; [left; lia | reflexivity].
  - destruct (Z.eqb_spec (count v) (count v0)) as [Heq|Hne]; cbn [orb andb].
    + destruct (average v0 <? average v)%float eqn:E.
      * left. split; [right; split; [lia | exact E] | reflexivity].
      * right. split; [|reflexivity]. right. split; [exact Heq | exact E].
    + right. split; [left; lia | reflexivity].
Qed.

(** The first entry the loop of [getSmoothedEmotion] visits becomes the
    best one: its count exceeds the -1 the loop starts from. *)
Lemma emotionVisit_first k v :
  0 < count v ->
  emotionVisit {| bestName := None; bestCount := -1; bestAvg := (-1)%float |} (k, v)
  = {| bestName := Some k; bestCount := count v; bestAvg := average v |}.
Proof.
  intros Hpos. unfold emotionVisit. cbn [bestCount].
  destruct (Z.gtb_spec (count v) (-1)); [reflexivity | lia].
Qed.

(** The loop of [getSmoothedEmotion] over a counter whose averages are
    numbers stops on the first entry that no entry ranks above: those before
    it rank strictly below. *)
Lemma emotionVisit_fold c :
  c <> [] ->
  Forall (fun e => 0 < count e.2 /\ is_nan (average e.2) = false) c ->
  exists c1 k v c2,
    c = c1 ++ (k, v) :: c2
    /\ fold_left emotionVisit c
         {| bestName := None; bestCount := -1; bestAvg := (-1)%float |}
       = {| bestName := Some k; bestCount := count v; bestAvg := average v |}
    /\ Forall (fun e => below e.2 v) c1
    /\ Forall (fun e => notAbove e.2 v) c2.
Proof.
  induction c as [|[k' v'] c IH] using rev_ind; [congruence|].
  intros _ Hwf. apply Forall_app in Hwf as [Hwf Hwf'].
  rewrite Forall_singleton in Hwf'. destruct Hwf' as [Hpos' Hn']. simpl in Hpos', Hn'.
  rewrite fold_left_app. cbn [fold_left].
  destruct c as [|e0 c0].
  - exists [], k', v', []. cbn [fold_left app]. repeat split; try constructor.
    now apply emotionVisit_first.
  - destruct IH as (c1 & k & v & c2 & Hc & Hf & H1 & H2); [congruence | exact Hwf |].
    rewrite Hf.
    destruct (emotionVisit_spec
                {| bestName := Some k; bestCount := count v; bestAvg := average v |}
                k' v' v eq_refl eq_refl) as [[Hb ->] | [Hn ->]].
    + exists (e0 :: c0), k', v', []. repeat split; [|constructor].
      rewrite Hc. apply Forall_app. split; [|apply Forall_cons; split].
      * eapply Forall_impl; [exact H1|]. intros e He. simpl in *.
        eapply below_trans; eassumption.
      * exact Hb.
      * rewrite Hc in Hwf. apply Forall_app in Hwf as [_ Hwf].
        apply Forall_cons in Hwf as [_ Hwf].
        rewrite Forall_forall in *. intros e He.
        eapply notAbove_below; [apply (Hwf e He) | now apply H2 | exact Hb].
    + exists c1, k, v, (c2 ++ [(k', v')]). repeat split.
      * rewrite Hc, <- app_assoc. reflexivity.
      * exact H1.
      * apply Forall_app. split; [exact H2 | now apply Forall_singleton].
Qed.

(** Whatever the averages are, the entry that loop stops on has the largest
    count. *)
Lemma emotionVisit_fold_count c :
  c <> [] -> Forall (fun e => 0 < count e.2) c ->
  exists k v,
    (k, v) ∈ c
    /\ fold_left emotionVisit c
         {| bestName := None; bestCount := -1; bestAvg := (-1)%float |}
       = {| bestName := Some k; bestCount := count v; bestAvg := average v |}
    /\ Forall (fun e => count e.2 <= count v) c.
Proof.
  induction c as [|[k' v'] c IH] using rev_ind; [congruence|].
  intros _ Hwf. apply Forall_app in Hwf as [Hwf Hwf'].
  rewrite Forall_singleton in Hwf'. simpl in Hwf'.
  rewrite fold_left_app. cbn [fold_left].
  destruct c as [|e0 c0].
  - exists k', v'. cbn [fold_left app]. split; [left|]. split.
    + now apply emotionVisit_first.
    + apply Forall_singleton. simpl. lia.
  - destruct IH as (k & v & Hin & Hf & Hmax); [congruence | exact Hwf |].
    rewrite Hf.
    destruct (emotionVisit_spec
                {| bestName := Some k; bestCount := count v; bestAvg := average v |}
                k' v' v eq_refl eq_refl) as [[Hb ->] | [Hn ->]].
    + exists k', v'. split; [apply elem_of_app; right; left|]. split; [reflexivity|].
      assert (Hle : count v <= count v') by (destruct Hb as [?|[? _]]; lia).
      apply Forall_app. split; [|apply Forall_singleton; simpl; lia].
      eapply Forall_impl; [exact Hmax|]. intros e He. simpl in *. lia.
    + exists k, v. split; [apply elem_of_app; now left|]. split; [reflexivity|].
      apply Forall_app. split; [exact Hmax|]. apply Forall_singleton. simpl.
      destruct Hn as [?|[? _]]; lia.
Qed.

(** The loop of [getSmoothedGender]: the first entry of the largest count. *)
Lemma genderVisit_fold c :
  c <> [] -> Forall (fun e => 0 < count e.2) c ->
  exists c1 k v c2,
    c = c1 ++ (k, v) :: c2
    /\ fold_left genderVisit c (None, -1) = (Some k, count v)
    /\ Forall (fun e => count e.2 < count v) c1
    /\ Forall (fun e => count e.2 <= count v) c2.
Proof.
  induction c as [|[k' v'] c IH] using rev_ind; [congruence|].
  intros _ Hwf. apply Forall_app in Hwf as [Hwf Hwf'].
  rewrite Forall_singleton in Hwf'. simpl in Hwf'.
  rewrite fold_left_app. cbn [fold_left].
  destruct c as [|e0 c0].
  - exists [], k', v', []. cbn [fold_left app]. repeat split; try constructor.
    unfold genderVisit. cbn [snd].
    destruct (Z.gtb_spec (count v') (-1)); [reflexivity | lia].
  - destruct IH as (c1 & k & v & c2 & Hc & Hf & H1 & H2); [congruence | exact Hwf |].
    rewrite Hf. unfold genderVisit. cbn [snd].
    destruct (Z.gtb_spec (count v') (count v)) as [Hgt|Hle].
    + exists (e0 :: c0), k', v', []. repeat split; [|constructor].
      rewrite Hc. apply Forall_app. split; [|apply Forall_cons; split].
      * eapply Forall_impl; [exact H1|]. intros e He. simpl in *. lia.
      * simpl. lia.
      * eapply Forall_impl; [exact H2|]. intros e He. simpl in *. lia.
    + exists c1, k, v, (c2 ++ [(k', v')]). repeat split.
      * rewrite Hc, <- app_assoc. reflexivity.
      * exact H1.
      * apply Forall_app. split; [exact H2 | now apply Forall_singleton].
Qed.

End Selection.

(** ** The emotion and gender aggregators *)

Section Aggregators.
Implicit Types (obs : list Observation) (l w : string).

Lemma agrees_positive obs e : agrees obs e -> 0 < count e.2.
Proof. intros (Hpos & Hc & _). lia. Qed.

Lemma tallyAll_positive obs : Forall (fun e => 0 < count e.2) (tallyAll obs).
Proof.
  destruct (tallyAll_invariant obs) as (Hag & _ & _).
  eapply Forall_impl; [exact Hag|]. apply agrees_positive.
Qed.

Lemma getSmoothedEmotion_fold obs :
  obs <> [] ->
  getSmoothedEmotion (toEmotion <$> obs)
  = match
      bestName (fold_left emotionVisit (tallyAll obs)
                  {| bestName := None; bestCount := -1; bestAvg := (-1)%float |})
    with
    | Some n =>
        Some {| name := n;
                score := Num (round
                  (bestAvg (fold_left emotionVisit (tallyAll obs)
                              {| bestName := None; bestCount := -1; bestAvg := (-1)%float |})
                   * 100)%float) |}
    | None => None
    end.
Proof.
  intros Hne. unfold getSmoothedEmotion. rewrite length_fmap.
  destruct obs as [|o obs']; [congruence|].
  change (length (o :: obs') =? 0)%nat with false. cbv iota.
  now rewrite tallyAll_emotion.
Qed.

Lemma beats_asymmetric obs w l : beats obs w l -> beats obs l w -> False.
Proof.
  unfold beats.
  intros [H1 | [[H1 H1'] | (H1 & H1' & H1'')]] [H2 | [[H2 H2'] | (H2 & H2' & H2'')]];
    try lia; float_numeric; float_order.
Qed.

(** C2, as amended. For a non-empty list of emotion observations whose
    binary64 averages are numbers, [getSmoothedEmotion] returns a label [w]
    of the list that beats every other label of the list: [w] occurs more
    often, or as often with a higher average, or as often with the same
    average and is first encountered earlier. The average of a label is the
    binary64 one: its confidences added one by one from 0, in the order of
    the list, the sum divided by the count. The confidence returned is
    [Math.round] of the binary64 product of the average of [w] and 100.
    There is one such label only, so the result is determined by the
    list. *)
Theorem getSmoothedEmotion_mode obs :
  obs <> [] ->
  Forall (fun o => is_nan (avg_of o.1 obs) = false) obs ->
  exists w,
    getSmoothedEmotion (toEmotion <$> obs)
    = Some {| name := w; score := Num (round (avg_of w obs * 100)%float) |}
    /\ w ∈ obs.*1
    /\ (forall l, l ∈ obs.*1 -> l <> w -> beats obs w l)
    /\ (forall w', w' ∈ obs.*1 ->
          (forall l, l ∈ obs.*1 -> l <> w' -> beats obs w' l) -> w' = w).
Proof.
  intros Hne Hnum.
  destruct (tallyAll_invariant obs) as (Hag & _ & _).
  assert (Hlab : forall l, l ∈ obs.*1 -> is_nan (avg_of l obs) = false).
  { intros l Hl. apply list_elem_of_fmap in Hl as (o & -> & Ho).
    rewrite Forall_forall in Hnum. now apply Hnum. }
  assert (Hwf : Forall (fun e => 0 < count e.2 /\ is_nan (average e.2) = false)
                  (tallyAll obs)).
  { rewrite Forall_forall in *. intros e He. pose proof (Hag e He) as Hagr.
    split; [now apply (agrees_positive obs)|].
    rewrite (agrees_average obs e Hagr). apply Hlab.
    apply count_of_pos_elem. now destruct Hagr. }
  destruct (emotionVisit_fold (tallyAll obs)) as (c1 & w & v & c2 & Hc & Hf & H1 & H2).
  { now apply tallyAll_nonempty. }
  { exact Hwf. }
  destruct (tallyAll_around obs c1 w v c2 Hc)
    as (Hagw & Hag1 & Hag2 & _ & Hafter & Hside).
  pose proof (agrees_average obs _ Hagw) as Havg. simpl in Havg.
  assert (Hw : w ∈ obs.*1).
  { apply count_of_pos_elem. now destruct Hagw. }
  assert (Hbeats : forall l, l ∈ obs.*1 -> l <> w -> beats obs w l).
  { intros l Hl Hlw. pose proof (Hlab l Hl) as Hnl. pose proof (Hlab w Hw) as Hnw.
    destruct (Hside l Hl Hlw) as (e & <- & [He|He]).
    - rewrite Forall_forall in H1, Hag1.
      pose proof (agrees_average obs e (Hag1 e He)) as Hae.
      destruct (Hag1 e He) as (_ & Hce & _). destruct Hagw as (_ & Hcw & _).
      simpl in Hcw. unfold beats. rewrite <- Hce, <- Hcw, <- Hae, <- Havg.
      destruct (H1 e He) as [Hlt | [Heq Hlt]]; [now left | right; left; now split].
    - rewrite Forall_forall in H2, Hag2, Hafter.
      pose proof (agrees_average obs e (Hag2 e He)) as Hae.
      destruct (Hag2 e He) as (_ & Hce & _). destruct Hagw as (_ & Hcw & _).
      simpl in Hcw. unfold beats. rewrite <- Hce, <- Hcw, <- Hae, <- Havg.
      rewrite <- Hae in Hnl. rewrite <- Havg in Hnw.
      destruct (H2 e He) as [Hlt | [Heq Hle]]; [now left|].
      destruct (average e.2 <? average v)%float eqn:E; [right; left; now split|].
      right. right. split; [exact Heq|]. split; [float_order | now apply Hafter]. }
  exists w. split; [|split; [exact Hw | split; [exact Hbeats|]]].
  - rewrite getSmoothedEmotion_fold, Hf by assumption. cbn [bestName bestAvg].
    now rewrite Havg.
  - intros w' Hw' Hbeats'.
    destruct (decide (w' = w)) as [E|E]; [exact E | exfalso].
    apply (beats_asymmetric obs w w'); [now apply Hbeats | apply Hbeats'; auto].
Qed.

Lemma getSmoothedEmotion_mode_witness :
  exists w,
    getSmoothedEmotion
      (toEmotion <$> [("happy", 0.9); ("happy", 0.8); ("sad", 0.95)]%float)
    = Some {| name := w;
              score := Num (round
                (avg_of w [("happy", 0.9); ("happy", 0.8); ("sad", 0.95)]%float * 100)%float) |}
    /\ w ∈ [("happy", 0.9); ("happy", 0.8); ("sad", 0.95)]%float.*1.
Proof.
  destruct (getSmoothedEmotion_mode
              [("happy", 0.9); ("happy", 0.8); ("sad", 0.95)]%float
              ltac:(discriminate)
              ltac:(repeat constructor)) as (w & Hr & Hw & _).
  exists w. split; [exact Hr | exact Hw].
Defined.

(** The specification's two examples. *)
Example getSmoothedEmotion_by_count :
  getSmoothedEmotion
    (toEmotion <$> [("happy", 0.9); ("happy", 0.8); ("sad", 0.95)]%float)
  = Some {| name := "happy"; score := Num 85 |}.
Proof. vm_compute. reflexivity. Qed.

Example getSmoothedEmotion_by_average :
  getSmoothedEmotion (toEmotion <$> [("happy", 0.5); ("sad", 0.9)]%float)
  = Some {| name := "sad"; score := Num 90 |}.
Proof. vm_compute. reflexivity. Qed.

End Aggregators.

(** C2, as stated, fails on the confidence returned. Two observations of
    "happy", at 0.55 and at 0.58, average to 0.565, and 56.5 rounds to 57,
    whether the confidences are read as these decimals or as the binary64
    numbers nearest to them; [getSmoothedEmotion] returns 56, because the
    binary64 product of the binary64 average and 100 is
    56.499999999999993. The hook passes this history to the aggregator
    after two frames under a window of two. *)
Lemma getSmoothedEmotion_score_inexact :
  getSmoothedEmotion (toEmotion <$> [("happy", 0.55); ("happy", 0.58)]%float)
  = Some {| name := "happy"; score := Num 56 |}
  /\ nearest (exactMean [55 # 100; 58 # 100] * 100) = 57
  /\ (exists a b : Q,
        toQ 0.55 = Some a /\ toQ 0.58 = Some b
        /\ nearest (exactMean [a; b] * 100) = 57)
  /\ (avg_of "happy" [("happy", 0.55); ("happy", 0.58)]%float * 100)%float
     = 56.499999999999993%float
  /\ d_emotion <$> faceData
       (run Sample.twoFrames
          [ withFaces [Sample.bareFace (Some [ {| cscore := Num 0.55; cemotion := "happy" |} ])
                         None None];
            withFaces [Sample.bareFace (Some [ {| cscore := Num 0.58; cemotion := "happy" |} ])
                         None None] ]
          (Sample.session createHistoryBuffers))
     = Some (Some {| name := "happy"; score := Num 56 |}).
Proof.
  split; [vm_compute; reflexivity|]. split; [vm_compute; reflexivity|].
  split; [|split; vm_compute; reflexivity].
  do 2 eexists. repeat (split; [vm_compute; reflexivity|]). vm_compute. reflexivity.
Qed.

(** On a tie in count the binary64 averages decide: 0.1 and 0.2 average to
    0.15000000000000002, above the average 0.15 of 0.15 and 0.15, so
    "happy" is returned although "sad" is encountered first and the
    decimals tie. *)
Example getSmoothedEmotion_rounded_tie :
  getSmoothedEmotion
    (toEmotion <$> [("sad", 0.15); ("sad", 0.15); ("happy", 0.1); ("happy", 0.2)]%float)
  = Some {| name := "happy"; score := Num 15 |}
  /\ (exactMean [15 # 100; 15 # 100] == exactMean [10 # 100; 20 # 100])%Q.
Proof. split; [vm_compute; reflexivity | reflexivity]. Qed.

Section GenderAggregator.
Implicit Types (obs : list Observation) (l w : string).

Lemma getSmoothedGender_fold obs :
  obs <> [] ->
  getSmoothedGender (toGender <$> obs)
  = {| sgender := fst (fold_left genderVisit (tallyAll obs) (None, -1));
       sscore :=
         match
           match fst (fold_left genderVisit (tallyAll obs) (None, -1)) with
           | Some g => if truthy (Str g) then Map_get (tallyAll obs) g else None
           | None => None
           end
         with
         | Some st => Some (round ((total st / ofZ (count st)) * 100)%float)
         | None => None
         end |}.
Proof.
  intros Hne. unfold getSmoothedGender. rewrite length_fmap.
  destruct obs as [|o obs']; [congruence|].
  change (length (o :: obs') =? 0)%nat with false. cbv iota.
  now rewrite tallyAll_gender.
Qed.

(** The result of [getSmoothedGender] once the loop over the counter has
    settled on the entry of a label [w]. *)
Lemma getSmoothedGender_result obs c1 w v c2 :
  obs <> [] ->
  tallyAll obs = c1 ++ (w, v) :: c2 ->
  fold_left genderVisit (tallyAll obs) (None, -1) = (Some w, count v) ->
  getSmoothedGender (toGender <$> obs)
  = {| sgender := Some w;
       sscore := if String.eqb w EmptyString then None
                 else Some (round (avg_of w obs * 100)%float) |}.
Proof.
  intros Hne Hc Hf.
  destruct (tallyAll_around obs c1 w v c2 Hc) as (Hagw & _ & _ & Hnot & _ & _).
  pose proof (agrees_average obs _ Hagw) as Havg. simpl in Havg.
  rewrite getSmoothedGender_fold, Hf by assumption. cbn [fst truthy]. f_equal.
  destruct (String.eqb w EmptyString); cbn [negb]; [reflexivity|].
  rewrite Hc, (Map_get_middle c1 c2 w v Hnot). fold (average v). now rewrite Havg.
Qed.

(** C4, as amended. For a non-empty list of gender observations
    [getSmoothedGender] returns the label that occurs most often, the one
    first encountered among those that occur as often; no confidence takes
    part in the choice. The score is [Math.round] of the binary64 product
    of that label's binary64 average and 100; for the empty label, which
    the hook never lets into a history, the score is [null]. *)
Theorem getSmoothedGender_mode obs :
  obs <> [] ->
  exists w,
    getSmoothedGender (toGender <$> obs)
    = {| sgender := Some w;
         sscore := if String.eqb w EmptyString then None
                   else Some (round (avg_of w obs * 100)%float) |}
    /\ w ∈ obs.*1
    /\ (forall l, l ∈ obs.*1 -> l <> w -> beats_by_count obs w l).
Proof.
  intros Hne.
  destruct (tallyAll_invariant obs) as (Hag & _ & _).
  destruct (genderVisit_fold (tallyAll obs)) as (c1 & w & v & c2 & Hc & Hf & H1 & H2).
  { now apply tallyAll_nonempty. }
  { apply tallyAll_positive. }
  destruct (tallyAll_around obs c1 w v c2 Hc)
    as (Hagw & Hag1 & Hag2 & Hnot & Hafter & Hside).
  exists w. split; [|split].
  - now apply (getSmoothedGender_result obs c1 w v c2).
  - apply count_of_pos_elem. now destruct Hagw.
  - intros l Hl Hlw. destruct (Hside l Hl Hlw) as (e & <- & [He|He]).
    + rewrite Forall_forall in H1, Hag1.
      destruct (Hag1 e He) as (_ & Hce & _). destruct Hagw as (_ & Hcw & _).
      simpl in Hcw. unfold beats_by_count. rewrite <- Hce, <- Hcw.
      left. now apply H1.
    + rewrite Forall_forall in H2, Hag2, Hafter.
      destruct (Hag2 e He) as (_ & Hce & _). destruct Hagw as (_ & Hcw & _).
      simpl in Hcw. unfold beats_by_count. rewrite <- Hce, <- Hcw.
      pose proof (H2 e He). pose proof (Hafter e He).
      destruct (decide (count e.2 < count v)); [now left | right].
      split; [lia | assumption].
Qed.

End GenderAggregator.

Lemma getSmoothedGender_mode_witness :
  exists w,
    getSmoothedGender
      (toGender <$> [("male", 0.6); ("female", 0.9); ("female", 0.7)]%float)
    = {| sgender := Some w;
         sscore := if String.eqb w EmptyString then None
                   else Some (round
                     (avg_of w [("male", 0.6); ("female", 0.9); ("female", 0.7)]%float
                      * 100)%float) |}
    /\ w ∈ [("male", 0.6); ("female", 0.9); ("female", 0.7)]%float.*1.
Proof.
  destruct (getSmoothedGender_mode
              [("male", 0.6); ("female", 0.9); ("female", 0.7)]%float
              ltac:(discriminate)) as (w & Hr & Hw & _).
  exists w. split; [exact Hr | exact Hw].
Defined.

(** The specification's example: two "female" observations outnumber one
    "male" observation of a higher single confidence. *)
Example getSmoothedGender_by_count :
  getSmoothedGender
    (toGender <$> [("male", 0.6); ("female", 0.9); ("female", 0.7)]%float)
  = {| sgender := Some "female"%string; sscore := Some 80%float |}.
Proof. vm_compute. reflexivity. Qed.

(** No confidence takes part in the choice: on a tie in count the label
    first encountered is returned, whatever the averages are. *)
Example getSmoothedGender_tie :
  getSmoothedGender (toGender <$> [("male", 0.4); ("female", 0.9)]%float)
  = {| sgender := Some "male"%string; sscore := Some 40%float |}.
Proof. vm_compute. reflexivity. Qed.

(** C4, as stated, fails on the score returned. Two observations of
    "female", at 0.55 and at 0.58, average to 0.565, and 56.5 rounds to 57,
    whether the confidences are read as these decimals or as the binary64
    numbers nearest to them; [getSmoothedGender] returns 56. The hook
    passes this history to the aggregator after two frames under a window
    of two. *)
Lemma getSmoothedGender_score_inexact :
  getSmoothedGender (toGender <$> [("female", 0.55); ("female", 0.58)]%float)
  = {| sgender := Some "female"%string; sscore := Some 56%float |}
  /\ nearest (exactMean [55 # 100; 58 # 100] * 100) = 57
  /\ (exists a b : Q,
        toQ 0.55 = Some a /\ toQ 0.58 = Some b
        /\ nearest (exactMean [a; b] * 100) = 57)
  /\ genderScore <$> faceData
       (run Sample.twoFrames
          [ withFaces [Sample.bareFace None (Some "female"%string) (Some 0.55%float)];
            withFaces [Sample.bareFace None (Some "female"%string) (Some 0.58%float)] ]
          (Sample.session createHistoryBuffers))
     = Some (Some 56%float).
Proof.
  split; [vm_compute; reflexivity|]. split; [vm_compute; reflexivity|].
  split; [|vm_compute; reflexivity].
  do 2 eexists. repeat (split; [vm_compute; reflexivity|]). vm_compute. reflexivity.
Qed.

(** ** Further properties of the aggregators *)

Section Winners.
Implicit Types (obs : list Observation) (l w : string).

(** The label either mode aggregator settles on occurs at least as often as
    any label, whatever the confidences are. *)
Lemma emotion_winner obs :
  obs <> [] ->
  exists w s,
    getSmoothedEmotion (toEmotion <$> obs) = Some {| name := w; score := s |}
    /\ 0 < count_of w obs
    /\ forall l, count_of l obs <= count_of w obs.
Proof.
  intros Hne.
  destruct (tallyAll_invariant obs) as (Hag & Hcov & _).
  destruct (emotionVisit_fold_count (tallyAll obs)) as (w & v & Hin & Hf & Hmax).
  { now apply tallyAll_nonempty. }
  { apply tallyAll_positive. }
  rewrite Forall_forall in Hag, Hmax.
  destruct (Hag _ Hin) as (Hpos & Hcw & _). simpl in Hpos, Hcw.
  exists w, (Num (round (average v * 100)%float)). split; [|split; [exact Hpos|]].
  - rewrite getSmoothedEmotion_fold, Hf by assumption. reflexivity.
  - intros l. destruct (decide (0 < count_of l obs)) as [Hl|Hl]; [|lia].
    apply Hcov, list_elem_of_fmap in Hl as (e & -> & He).
    destruct (Hag e He) as (_ & Hce & _). pose proof (Hmax e He). simpl in *. lia.
Qed.

Lemma gender_winner obs :
  obs <> [] ->
  exists w,
    getSmoothedGender (toGender <$> obs)
    = {| sgender := Some w;
         sscore := if String.eqb w EmptyString then None
                   else Some (round (avg_of w obs * 100)%float) |}
    /\ 0 < count_of w obs
    /\ forall l, count_of l obs <= count_of w obs.
Proof.
  intros Hne.
  destruct (tallyAll_invariant obs) as (Hag & _ & _).
  destruct (genderVisit_fold (tallyAll obs)) as (c1 & w & v & c2 & Hc & Hf & H1 & H2).
  { now apply tallyAll_nonempty. }
  { apply tallyAll_positive. }
  destruct (tallyAll_around obs c1 w v c2 Hc)
    as (Hagw & Hag1 & Hag2 & Hnot & _ & Hside).
  pose proof (getSmoothedGender_result obs c1 w v c2 Hne Hc Hf) as Hr.
  destruct Hagw as (Hpos & Hcw & _). simpl in Hpos, Hcw.
  exists w. split; [exact Hr|]. split; [exact Hpos|].
  intros l. destruct (decide (l = w)) as [->|Hlw]; [lia|].
  destruct (decide (0 < count_of l obs)) as [Hl|Hl]; [|lia].
  apply count_of_pos_elem in Hl.
  destruct (Hside l Hl Hlw) as (e & <- & [He|He]).
  + rewrite Forall_forall in H1, Hag1.
    destruct (Hag1 e He) as (_ & Hce & _). rewrite <- Hce, <- Hcw.
    pose proof (H1 e He). lia.
  + rewrite Forall_forall in H2, Hag2.
    destruct (Hag2 e He) as (_ & Hce & _). rewrite <- Hce, <- Hcw.
    pose proof (H2 e He). lia.
Qed.

(** Two different labels share the observations between them. *)
Lemma count_of_two l w obs :
  l <> w -> count_of l obs + count_of w obs <= Z.of_nat (length obs).
Proof.
  intros Hne. induction obs as [|o obs IH]; simpl; [lia|].
  destruct (String.eqb_spec o.1 l), (String.eqb_spec o.1 w); try lia. congruence.
Qed.

End Winners.

Section AggregatorProperties.
Implicit Types (obs : list Observation) (l w : string).

(** X6. A label that makes up more than half of a history is the one both
    mode aggregators return, whatever the confidences are. *)
Theorem strict_majority_wins obs l :
  Z.of_nat (length obs) < 2 * count_of l obs ->
  name <$> getSmoothedEmotion (toEmotion <$> obs) = Some l
  /\ sgender (getSmoothedGender (toGender <$> obs)) = Some l.
Proof.
  intros Hmaj.
  assert (Hne : obs <> []) by (intros ->; simpl in Hmaj; lia).
  split.
  - destruct (emotion_winner obs Hne) as (w & s & Hr & _ & Hmax).
    rewrite Hr. simpl. f_equal.
    destruct (decide (w = l)) as [E|E]; [exact E | exfalso].
    pose proof (count_of_two l w obs ltac:(congruence)). pose proof (Hmax l). lia.
  - destruct (gender_winner obs Hne) as (w & Hr & _ & Hmax).
    rewrite Hr. simpl. f_equal.
    destruct (decide (w = l)) as [E|E]; [exact E | exfalso].
    pose proof (count_of_two l w obs ltac:(congruence)). pose proof (Hmax l). lia.
Qed.

(** X7. One more observation of the label an aggregator currently returns
    does not change the label it returns, whatever its confidence is. *)
Theorem reinforcement_keeps_winner obs w (q : number) :
  (name <$> getSmoothedEmotion (toEmotion <$> obs) = Some w ->
   name <$> getSmoothedEmotion (toEmotion <$> (obs ++ [(w, q)])) = Some w)
  /\ (sgender (getSmoothedGender (toGender <$> obs)) = Some w ->
      sgender (getSmoothedGender (toGender <$> (obs ++ [(w, q)]))) = Some w).
Proof.
  assert (Hne' : obs ++ [(w, q)] <> []) by (destruct obs; discriminate).
  split; intros Hw.
  - assert (Hne : obs <> []) by (intros ->; discriminate).
    destruct (emotion_winner obs Hne) as (w0 & s0 & Hr & _ & Hmax).
    rewrite Hr in Hw. simpl in Hw. injection Hw as ->.
    destruct (emotion_winner _ Hne') as (w' & s' & Hr' & _ & Hmax').
    rewrite Hr'. simpl. f_equal.
    destruct (decide (w' = w)) as [E|E]; [exact E | exfalso].
    pose proof (Hmax' w) as H1. pose proof (Hmax w') as H2.
    rewrite !count_of_app in H1. simpl in H1. rewrite String.eqb_refl in H1.
    destruct (String.eqb_spec w w'); [congruence | lia].
  - assert (Hne : obs <> []) by (intros ->; discriminate).
    destruct (gender_winner obs Hne) as (w0 & Hr & _ & Hmax).
    rewrite Hr in Hw. simpl in Hw. injection Hw as ->.
    destruct (gender_winner _ Hne') as (w' & Hr' & _ & Hmax').
    rewrite Hr'. simpl. f_equal.
    destruct (decide (w' = w)) as [E|E]; [exact E | exfalso].
    pose proof (Hmax' w) as H1. pose proof (Hmax w') as H2.
    rewrite !count_of_app in H1. simpl in H1. rewrite String.eqb_refl in H1.
    destruct (String.eqb_spec w w'); [congruence | lia].
Qed.

End AggregatorProperties.

Lemma strict_majority_wins_witness :
  name <$> getSmoothedEmotion
             (toEmotion <$> [("sad", 0.1); ("happy", 0.9); ("sad", 0.2)]%float)
  = Some "sad"%string.
Proof.
  apply (proj1 (strict_majority_wins
                  [("sad", 0.1); ("happy", 0.9); ("sad", 0.2)]%float "sad"
                  ltac:(reflexivity))).
Defined.

Lemma reinforcement_keeps_winner_witness :
  name <$> getSmoothedEmotion
             (toEmotion <$> ([("happy", 0.5); ("sad", 0.9)] ++ [("sad", 0.1)])%float)
  = Some "sad"%string.
Proof.
  apply (proj1 (reinforcement_keeps_winner
                  [("happy", 0.5); ("sad", 0.9)]%float "sad" 0.1%float)).
  vm_compute. reflexivity.
Defined.

(** ** The loop over many frames *)

Section Frames.
Variable config : SmoothConfig.

Lemma pushWithLimit_Forall {T : Type} (P : T -> Prop) (arr : list T) (item : T) (limit : Z) :
  Forall P arr -> P item -> Forall P (pushWithLimit arr item limit).
Proof.
  intros Ha Hi. unfold pushWithLimit.
  assert (H : Forall P (arr ++ [item])) by (apply Forall_app; split; [exact Ha | now apply Forall_singleton]).
  destruct (_ >? _); [|exact H].
  destruct (arr ++ [item]) as [|x l]; [constructor|]. simpl. now apply Forall_cons in H as [_ H].
Qed.

(** What one call of the loop does to the buffers, the running flag and the
    face data, in terms of the first face of the frame. *)
Lemma detectionLoop_buffers (frame : option Human) (st : State) :
  historyBuffers (detectionLoop config frame st)
  = if detectionActive st then
      match firstFace frame with
      | Some f =>
          {| emotion := updateEmotion config f (emotion (historyBuffers st));
             hgender := updateGender config f (hgender (historyBuffers st));
             age := updateAge config f (age (historyBuffers st)) |}
      | None => historyBuffers st
      end
    else historyBuffers st.
Proof.
  unfold detectionLoop, firstFace. destruct (detectionActive st); [|reflexivity].
  destruct frame as [h|]; [|reflexivity].
  destruct (result h) as [[[[|f fs]|]]|]; reflexivity.
Qed.

Lemma detectionLoop_active (frame : option Human) (st : State) :
  detectionActive (detectionLoop config frame st) = detectionActive st.
Proof.
  unfold detectionLoop. destruct (detectionActive st) eqn:E; [|exact E].
  destruct frame as [h|]; [|exact E].
  destruct (result h) as [[[[|f fs]|]]|]; reflexivity.
Qed.

Lemma detectionLoop_faceData (frame : option Human) (st : State) :
  faceData (detectionLoop config frame st) = faceData st
  \/ faceData (detectionLoop config frame st) = None
  \/ exists f,
       firstFace frame = Some f /\ detectionActive st = true
       /\ faceData (detectionLoop config frame st)
          = Some (display f (historyBuffers (detectionLoop config frame st))).
Proof.
  unfold detectionLoop, firstFace. destruct (detectionActive st); [|now left].
  destruct frame as [h|]; [|now left].
  destruct (result h) as [[[[|f fs]|]]|]; try (right; left; reflexivity).
  right. right. exists f. repeat split.
Qed.

Lemma run_snoc (frames : list (option Human)) (frame : option Human) (st : State) :
  run config (frames ++ [frame]) st = detectionLoop config frame (run config frames st).
Proof. unfold run. now rewrite fold_left_app. Qed.

Lemma run_active (frames : list (option Human)) (st : State) :
  detectionActive (run config frames st) = detectionActive st.
Proof.
  induction frames as [|frame frames IH] using rev_ind; [reflexivity|].
  now rewrite run_snoc, detectionLoop_active.
Qed.

(** A property of states that every call of the loop keeps is kept by every
    run of the loop. *)
Lemma run_invariant (P : State -> Prop) :
  (forall frame st, P st -> P (detectionLoop config frame st)) ->
  forall frames st, P st -> P (run config frames st).
Proof.
  intros Hstep frames. induction frames as [|frame frames IH] using rev_ind;
    intros st HP; [exact HP|].
  rewrite run_snoc. apply Hstep. now apply IH.
Qed.

Lemma updateGender_cases (f : FaceResult) (buf : list GenderData) :
  updateGender config f buf = buf
  \/ exists g s,
       g <> EmptyString /\ (minConfidence config <=? s)%float = true
       /\ updateGender config f buf
          = pushWithLimit buf {| gender := g; gscore := s |} (windowSize config).
Proof.
  unfold updateGender. destruct (f_gender f) as [g|]; [|now left].
  destruct (f_genderScore f) as [s|]; [|now left].
  destruct (truthy (Str g)) eqn:Et; cbn [andb]; [|now left].
  destruct (_ <=? _)%float eqn:E; [|now left].
  right. exists g, s. split; [|split; [exact E | reflexivity]].
  intros ->. discriminate.
Qed.

Lemma updateAge_cases (f : FaceResult) (buf : list number) :
  updateAge config f buf
  = match f_age f with
    | Some a => pushWithLimit buf a (windowSize config)
    | None => buf
    end.
Proof. reflexivity. Qed.

Lemma pushWithLimit_bounded {T : Type} (arr : list T) (item : T) (limit : Z) :
  1 <= limit -> Z.of_nat (length arr) <= limit ->
  Z.of_nat (length (pushWithLimit arr item limit)) <= limit.
Proof.
  intros Hl Ha. rewrite pushWithLimit_length.
  destruct (Z.gtb_spec (Z.of_nat (length arr) + 1) limit); lia.
Qed.

(** X9. With a window of at least 1, buffers that are no longer than the
    window stay so over every run of the loop; the buffers of
    [createHistoryBuffers] are. *)
Theorem run_keeps_buffers_bounded (frames : list (option Human)) (st : State) :
  1 <= windowSize config ->
  bounded config (historyBuffers st) ->
  bounded config (historyBuffers (run config frames st))
  /\ bounded config createHistoryBuffers.
Proof.
  intros Hw Hb. split; [|unfold bounded; simpl; lia].
  revert frames st Hb.
  apply (run_invariant (fun st => bounded config (historyBuffers st))).
  intros frame st (He & Hg & Ha). rewrite detectionLoop_buffers.
  destruct (detectionActive st); [|now repeat split].
  destruct (firstFace frame) as [f|]; [|now repeat split].
  unfold bounded. cbn [emotion hgender age]. repeat split.
  - destruct (updateEmotion_cases config f (emotion (historyBuffers st)))
      as [-> | (top & _ & ->)];
      [exact He | now apply pushWithLimit_bounded].
  - destruct (updateGender_cases f (hgender (historyBuffers st))) as [-> | (g & s & _ & _ & ->)];
      [exact Hg | now apply pushWithLimit_bounded].
  - rewrite updateAge_cases. destruct (f_age f); [now apply pushWithLimit_bounded | exact Ha].
Qed.

End Frames.

(** ** What the loop lets into the buffers, and what it shows of them *)

Section Accepted.
Variable config : SmoothConfig.

(** A buffer of accepted observations is a history of labels that are not
    empty. *)
Lemma accepted_gender_obs (buf : list GenderData) :
  Forall (acceptedGender config) buf ->
  exists obs : list Observation,
    buf = toGender <$> obs /\ Forall (fun o => o.1 <> EmptyString) obs.
Proof.
  induction 1 as [|g buf (Hne & Hle) _ (obs & -> & H1)].
  - exists []. split; constructor.
  - exists ((gender g, gscore g) :: obs). destruct g as [g s]. simpl in *.
    split; [reflexivity | now constructor].
Qed.

Lemma genderShown_display (f : FaceResult) (h : HistoryBuffers) :
  Forall (acceptedGender config) (hgender h) -> genderShown (display f h).
Proof.
  intros Hacc. destruct (accepted_gender_obs _ Hacc) as (obs & Hobs & Hlab).
  unfold genderShown, display. cbn [d_gender genderScore]. rewrite Hobs.
  destruct obs as [|o obs]; [left; now split | right].
  destruct (gender_winner (o :: obs) ltac:(discriminate)) as (w & -> & Hpos & _).
  assert (Hw : w <> EmptyString).
  { apply count_of_pos_elem, list_elem_of_fmap in Hpos as (o' & -> & Ho').
    rewrite Forall_forall in Hlab. now apply Hlab. }
  exists w, (round (avg_of w (o :: obs) * 100)%float). cbn [sgender sscore].
  split; [exact Hw|]. split; [reflexivity|].
  destruct (String.eqb_spec w EmptyString); [contradiction | reflexivity].
Qed.

(** X10. Every gender observation the loop lets into its buffer has a label
    that is not empty and a confidence of at least [minConfidence]; and the
    face data shows either no gender and no score, or a label that is not
    empty together with a score: never a label without a score. Both hold
    after every run of the loop when they hold before it, as they do for a
    new session. *)
Theorem gender_shown_with_score (frames : list (option Human)) (st : State) :
  Forall (acceptedGender config) (hgender (historyBuffers st)) ->
  (forall d, faceData st = Some d -> genderShown d) ->
  Forall (acceptedGender config) (hgender (historyBuffers (run config frames st)))
  /\ forall d, faceData (run config frames st) = Some d -> genderShown d.
Proof.
  intros Hb Hd.
  apply (run_invariant config
           (fun st => Forall (acceptedGender config) (hgender (historyBuffers st))
                      /\ forall d, faceData st = Some d -> genderShown d));
    [|now split].
  clear. intros frame st [Hb Hd].
  assert (Hb' : Forall (acceptedGender config)
                  (hgender (historyBuffers (detectionLoop config frame st)))).
  { rewrite detectionLoop_buffers. destruct (detectionActive st); [|exact Hb].
    destruct (firstFace frame) as [f|]; [|exact Hb]. cbn [hgender].
    destruct (updateGender_cases config f (hgender (historyBuffers st)))
      as [-> | (g & s & Hg & Hs & ->)]; [exact Hb|].
    apply pushWithLimit_Forall; [exact Hb|]. now split. }
  split; [exact Hb'|]. intros d.
  destruct (detectionLoop_faceData config frame st) as [-> | [-> | (f & _ & _ & ->)]].
  - apply Hd.
  - discriminate.
  - intros [= <-]. now apply genderShown_display.
Qed.

(** X11. With a positive [minConfidence], every emotion observation the
    loop lets into its buffer has a score that is a number, and one of at
    least [minConfidence]: no [null], [undefined] or [NaN] gets in. This
    holds after every run of the loop when it holds before it, as it does
    for a new session. *)
Theorem emotion_history_above_threshold (frames : list (option Human)) (st : State) :
  (0 <? minConfidence config)%float = true ->
  Forall (acceptedEmotion config) (emotion (historyBuffers st)) ->
  Forall (acceptedEmotion config) (emotion (historyBuffers (run config frames st)))
  /\ Forall (acceptedEmotion config) (emotion createHistoryBuffers).
Proof.
  intros Hpos Hb. split; [|constructor].
  destruct (ltb_numeric _ _ Hpos) as [H0 Hm].
  assert (Hzero : (minConfidence config <=? 0)%float = false) by float_order.
  revert frames st Hb.
  apply (run_invariant config
           (fun st => Forall (acceptedEmotion config) (emotion (historyBuffers st)))).
  intros frame st Hb.
  rewrite detectionLoop_buffers. destruct (detectionActive st); [|exact Hb].
  destruct (firstFace frame) as [f|]; [|exact Hb]. cbn [emotion].
  destruct (updateEmotion_cases config f (emotion (historyBuffers st)))
    as [-> | (top & Hle & ->)]; [exact Hb|].
  apply pushWithLimit_Forall; [exact Hb|].
  destruct (cscore top) as [x| |]; cbn [orZero] in Hle; try congruence.
  exists x. split; [reflexivity | exact Hle].
Qed.

End Accepted.

(** ** The window at work *)

Section Window.
Variable config : SmoothConfig.

Lemma detectionLoop_faceData_face (frame : option Human) (f : FaceResult) (st : State) :
  detectionActive st = true ->
  firstFace frame = Some f ->
  faceData (detectionLoop config frame st)
  = Some (display f (historyBuffers (detectionLoop config frame st))).
Proof.
  intros Ha Hf. unfold detectionLoop, firstFace in *. rewrite Ha.
  destruct frame as [h|]; [|discriminate].
  destruct (result h) as [[[[|f0 fs]|]]|]; try discriminate.
  injection Hf as ->. reflexivity.
Qed.

Lemma agesOf_snoc (frames : list (option Human)) (frame : option Human) :
  agesOf (frames ++ [frame])
  = agesOf frames ++ match firstFace frame ≫= f_age with Some a => [a] | None => [] end.
Proof.
  unfold agesOf. rewrite omap_app. reflexivity.
Qed.

(** The age buffer over a run: every age reported is pushed, in order. *)
Lemma run_age (frames : list (option Human)) (st : State) :
  detectionActive st = true ->
  age (historyBuffers (run config frames st))
  = pushAll (windowSize config) (age (historyBuffers st)) (agesOf frames).
Proof.
  intros Ha. induction frames as [|frame frames IH] using rev_ind; [reflexivity|].
  rewrite run_snoc, detectionLoop_buffers, run_active, Ha, agesOf_snoc.
  destruct (firstFace frame) as [f|]; cbn [mbind option_bind].
  - cbn [age]. rewrite updateAge_cases. destruct (f_age f) as [a|].
    + now rewrite pushAll_snoc, IH.
    + now rewrite app_nil_r.
  - now rewrite app_nil_r.
Qed.

Lemma last_n_nonempty {A : Type} (n : nat) (l : list A) :
  (1 <= n)%nat -> l <> [] -> last_n n l <> [].
Proof.
  intros Hn Hl Hnil. apply (f_equal length) in Hnil. unfold last_n in Hnil.
  rewrite length_drop in Hnil. destruct l; [congruence | simpl in Hnil; lia].
Qed.

(** X12. On a running session that starts with an empty age buffer and a
    window [N >= 1], the age buffer after any run of frames holds the last
    [N] ages the frames reported for their first faces, whatever else the
    frames contain; and when the last frame has a face, the age shown is
    [Math.round(m * 10) / 10] for [m] the binary64 mean of those ages. *)
Theorem age_shown_is_mean_of_last_ages (frames : list (option Human)) (st : State) :
  1 <= windowSize config ->
  detectionActive st = true ->
  age (historyBuffers st) = [] ->
  age (historyBuffers (run config frames st))
  = last_n (Z.to_nat (windowSize config)) (agesOf frames)
  /\ forall frame f,
       firstFace frame = Some f ->
       agesOf (frames ++ [frame]) <> [] ->
       d_age <$> faceData (run config (frames ++ [frame]) st)
       = Some (Some (round1 (mean
           (last_n (Z.to_nat (windowSize config)) (agesOf (frames ++ [frame])))))).
Proof.
  intros Hw Ha He.
  assert (Hbuf : forall fr, age (historyBuffers (run config fr st))
                            = last_n (Z.to_nat (windowSize config)) (agesOf fr)).
  { intros fr. now rewrite run_age, He, pushAll_last_n by assumption. }
  split; [apply Hbuf|].
  intros frame f Hf Hne.
  pose proof (Hbuf (frames ++ [frame])) as Hb.
  rewrite run_snoc in *.
  rewrite (detectionLoop_faceData_face frame f) by (rewrite ?run_active; assumption).
  cbn [fmap option_fmap option_map]. unfold display. cbn [d_age].
  rewrite Hb. do 2 f_equal. apply getSmoothedAge_value.
  apply last_n_nonempty; [lia | exact Hne].
Qed.

End Window.

Section SmallWindows.
Variable config : SmoothConfig.

Lemma pushWithLimit_one {T : Type} (arr : list T) (item : T) :
  (length arr <= 1)%nat -> pushWithLimit arr item 1 = [item].
Proof. destruct arr as [|x [|y arr]]; simpl; [reflexivity | reflexivity | lia]. Qed.

(** The mean of one number, and the average of one observation. *)
Lemma mean_single (a : number) : mean [a] = (0 + a)%float.
Proof. unfold mean. cbn [fold_left length]. apply div_1_r. Qed.

Lemma avg_of_single (l : string) (q : number) : avg_of l [(l, q)] = (0 + q)%float.
Proof.
  unfold avg_of, sum_of. cbn [fold_left count_of fst snd]. rewrite String.eqb_refl.
  apply div_1_r.
Qed.

Lemma count_of_single_pos (w l : string) (q : number) : 0 < count_of w [(l, q)] -> w = l.
Proof. simpl. destruct (String.eqb_spec l w); [congruence | lia]. Qed.

(** X13. With a window of 1, the hook's default, smoothing shows the latest
    accepted observation alone. On a running session whose buffers hold at
    most one item each, a frame with a face shows: its age rounded to one
    decimal place, when it reports one; its gender with
    [Math.round(score * 100)], when the gender passes the threshold; and
    its selected emotion candidate with [Math.round(score * 100)], when
    that candidate has a score that passes the threshold. The value
    rounded is [0 + x] for the value [x] reported: [x] itself, a negative
    zero apart. *)
Theorem window_of_one_shows_latest (st : State) (f : FaceResult) (fs : list FaceResult) :
  windowSize config = 1 ->
  detectionActive st = true ->
  bounded config (historyBuffers st) ->
  let d := faceData (detectionLoop config (withFaces (f :: fs)) st) in
  (forall a, f_age f = Some a ->
     d_age <$> d = Some (Some (round ((0 + a) * 10) / 10)%float))
  /\ (forall g s,
        f_gender f = Some g -> g <> EmptyString ->
        f_genderScore f = Some s -> (minConfidence config <=? s)%float = true ->
        d_gender <$> d = Some (Some g)
        /\ genderScore <$> d = Some (Some (round ((0 + s) * 100)%float)))
  /\ (forall candidates top q,
        f_emotion f = Some candidates ->
        head (sort byScoreDesc candidates) = Some top ->
        cscore top = Num q -> (minConfidence config <=? q)%float = true ->
        d_emotion <$> d
        = Some (Some {| name := cemotion top;
                        score := Num (round ((0 + q) * 100)%float) |})).
Proof.
  intros Hw Ha (He & Hg & Hage) d. subst d. rewrite Hw in He, Hg, Hage.
  rewrite (detectionLoop_faceData_face config _ f) by (assumption || reflexivity).
  rewrite detectionLoop_buffers, Ha. cbn [firstFace withFaces result face].
  cbn [fmap option_fmap option_map]. unfold display.
  cbn [d_age d_gender genderScore d_emotion emotion hgender age].
  split; [|split].
  - intros a Hfa. rewrite updateAge_cases, Hfa, Hw, pushWithLimit_one by lia.
    rewrite getSmoothedAge_value by discriminate. unfold round1.
    now rewrite mean_single.
  - intros g s Hfg Hne Hfs Hle. unfold updateGender. rewrite Hfg, Hfs.
    assert (Ht : truthy (Str g) = true).
    { simpl. destruct (String.eqb_spec g EmptyString); [contradiction | reflexivity]. }
    rewrite Ht, Hle, Hw, pushWithLimit_one by lia.
    cbn [andb]. change [{| gender := g; gscore := s |}] with (toGender <$> [(g, s)]).
    destruct (gender_winner [(g, s)] ltac:(discriminate)) as (w & -> & Hpos & _).
    apply count_of_single_pos in Hpos as ->. cbn [sgender sscore].
    split; [reflexivity|].
    destruct (String.eqb_spec g EmptyString); [contradiction|].
    now rewrite avg_of_single.
  - intros candidates top q Hfe Hh Hs Hle. unfold updateEmotion.
    rewrite Hfe, Hh, Hs. cbn [orZero].
    rewrite Hle, Hw, pushWithLimit_one by lia.
    change [{| name := cemotion top; score := Num q |}]
      with (toEmotion <$> [(cemotion top, q)]).
    rewrite getSmoothedEmotion_fold by discriminate.
    cbn [tallyAll fold_left tally Map_get Map_set default from_option id fst snd].
    rewrite emotionVisit_first by (simpl; lia).
    cbn [bestName bestAvg]. unfold average. cbn [total count].
    change (ofZ (0 + 1)) with 1%float. now rewrite div_1_r.
Qed.

Lemma pushWithLimit_nonpositive {T : Type} (item : T) (limit : Z) :
  limit <= 0 -> pushWithLimit [] item limit = [].
Proof.
  intros Hl. unfold pushWithLimit. simpl app. simpl length.
  destruct (Z.gtb_spec (Z.of_nat 1) limit); [reflexivity | lia].
Qed.

(** X14. With a window of 0 or less, buffers that are empty stay empty over
    every run of the loop, and the face data never shows an age, a gender
    or an emotion. *)
Theorem nonpositive_window_shows_nothing (frames : list (option Human)) (st : State) :
  windowSize config <= 0 ->
  historyBuffers st = createHistoryBuffers ->
  (forall d, faceData st = Some d -> blank d) ->
  historyBuffers (run config frames st) = createHistoryBuffers
  /\ forall d, faceData (run config frames st) = Some d -> blank d.
Proof.
  intros Hw Hb Hd.
  apply (run_invariant config
           (fun st => historyBuffers st = createHistoryBuffers
                      /\ forall d, faceData st = Some d -> blank d));
    [|now split].
  clear Hb Hd st frames. intros frame st [Hb Hd].
  assert (Hb' : historyBuffers (detectionLoop config frame st) = createHistoryBuffers).
  { rewrite detectionLoop_buffers, Hb. destruct (detectionActive st); [|reflexivity].
    destruct (firstFace frame) as [f|]; [|reflexivity].
    unfold createHistoryBuffers. cbn [emotion hgender age]. f_equal.
    - destruct (updateEmotion_cases config f []) as [-> | (top & _ & ->)];
        [reflexivity | now apply pushWithLimit_nonpositive].
    - destruct (updateGender_cases config f []) as [-> | (g & s & _ & _ & ->)];
        [reflexivity | now apply pushWithLimit_nonpositive].
    - rewrite updateAge_cases. destruct (f_age f);
        [now apply pushWithLimit_nonpositive | reflexivity]. }
  split; [exact Hb'|]. intros d.
  destruct (detectionLoop_faceData config frame st) as [-> | [-> | (f & _ & _ & ->)]].
  - apply Hd.
  - discriminate.
  - intros [= <-]. rewrite Hb'. repeat split.
Qed.

End SmallWindows.

(** ** The controls of the hook *)

Section Controls.
Variable config : SmoothConfig.

Lemma handleAll_snoc (events : list Event) (e : Event) (s : Session) :
  handleAll config (events ++ [e]) s = handle config (handleAll config events s) e.
Proof. unfold handleAll. now rewrite fold_left_app. Qed.

(** A property of sessions that every event keeps is kept by every sequence
    of events. *)
Lemma handleAll_invariant (P : Session -> Prop) :
  (forall s e, P s -> P (handle config s e)) ->
  forall events s, P s -> P (handleAll config events s).
Proof.
  intros Hstep events. induction events as [|e events IH] using rev_ind;
    intros s HP; [exact HP|].
  rewrite handleAll_snoc. apply Hstep. now apply IH.
Qed.

Lemma startDetection_loop (thrown : option string) (s : Session) :
  loop (startDetection thrown s) = loop s.
Proof.
  unfold startDetection.
  destruct (negb (humanRef s) || negb (videoRef s)); [reflexivity|].
  destruct (negb (isModelLoaded s)); [reflexivity|]. now destruct thrown.
Qed.

(** What one queued call does to the state of the loop and to the rest of
    the session. *)
Lemma callback_loop (h : Human) (s : Session) :
  loop (callback config h s) = detectionLoop config (seen s h) (loop s).
Proof.
  unfold callback, seen, detectionLoop.
  destruct (detectionActive (loop s)), (humanRef s); reflexivity.
Qed.

(** A property of sessions that a queued call keeps and that does not
    depend on the queue is kept by an animation frame. *)
Lemma frame_invariant (P : Session -> Prop) (h : Human) (s : Session) :
  (forall x, P x -> P (callback config h x)) ->
  P (takeQueue s) -> P (frame config h s).
Proof.
  intros Hstep H0. unfold frame. induction (queued s) as [|n IH]; [exact H0|].
  rewrite Nat.iter_succ. now apply Hstep.
Qed.

(** A call of the loop on a session whose loop is stopped does nothing. *)
Lemma callback_inactive (h : Human) (s : Session) :
  detectionActive (loop s) = false -> callback config h s = s.
Proof. intros Ha. unfold callback. now rewrite Ha. Qed.

Lemma frame_inactive (h : Human) (s : Session) :
  detectionActive (loop s) = false -> frame config h s = takeQueue s.
Proof.
  intros Ha. unfold frame. induction (queued s) as [|n IH]; [reflexivity|].
  rewrite Nat.iter_succ, IH. now apply callback_inactive.
Qed.

Lemma pushWithLimit_grows {T : Type} (arr : list T) (item : T) (limit : Z) :
  (length arr <= length (pushWithLimit arr item limit))%nat.
Proof. rewrite pushWithLimit_length. destruct (_ >? _); lia. Qed.

Lemma detectionLoop_grows (frame : option Human) (st : State) :
  (length (emotion (historyBuffers st))
   <= length (emotion (historyBuffers (detectionLoop config frame st))))%nat
  /\ (length (hgender (historyBuffers st))
      <= length (hgender (historyBuffers (detectionLoop config frame st))))%nat
  /\ (length (age (historyBuffers st))
      <= length (age (historyBuffers (detectionLoop config frame st))))%nat.
Proof.
  rewrite detectionLoop_buffers. destruct (detectionActive st); [|now repeat split].
  destruct (firstFace frame) as [f|]; [|now repeat split].
  cbn [emotion hgender age]. repeat split.
  - destruct (updateEmotion_cases config f (emotion (historyBuffers st)))
      as [-> | (top & _ & ->)]; [lia | apply pushWithLimit_grows].
  - destruct (updateGender_cases config f (hgender (historyBuffers st)))
      as [-> | (g & s & _ & _ & ->)]; [lia | apply pushWithLimit_grows].
  - rewrite updateAge_cases. destruct (f_age f); [apply pushWithLimit_grows | lia].
Qed.

(** X16. Nothing the hook does removes history: over every sequence of
    start and stop clicks, start timers and frames, under every
    configuration, none of the three buffers gets shorter. Stopping and
    restarting the detection keeps what was accumulated. *)
Theorem history_never_shrinks (events : list Event) (s : Session) :
  (length (emotion (historyBuffers (loop s)))
   <= length (emotion (historyBuffers (loop (handleAll config events s)))))%nat
  /\ (length (hgender (historyBuffers (loop s)))
      <= length (hgender (historyBuffers (loop (handleAll config events s)))))%nat
  /\ (length (age (historyBuffers (loop s)))
      <= length (age (historyBuffers (loop (handleAll config events s)))))%nat.
Proof.
  induction events as [|e events (IHe & IHg & IHa)] using rev_ind; [now repeat split|].
  rewrite handleAll_snoc. set (s' := handleAll config events s) in *.
  assert (Hstep :
    (length (emotion (historyBuffers (loop s')))
     <= length (emotion (historyBuffers (loop (handle config s' e)))))%nat
    /\ (length (hgender (historyBuffers (loop s')))
        <= length (hgender (historyBuffers (loop (handle config s' e)))))%nat
    /\ (length (age (historyBuffers (loop s')))
        <= length (age (historyBuffers (loop (handle config s' e)))))%nat).
  { destruct e as [thrown| | | |h]; cbn [handle].
    - rewrite startDetection_loop. now repeat split.
    - now repeat split.
    - now repeat split.
    - unfold startTimer. destruct (pendingStart s'); now repeat split.
    - apply (frame_invariant
               (fun x =>
                  (length (emotion (historyBuffers (loop s')))
                   <= length (emotion (historyBuffers (loop x))))%nat
                  /\ (length (hgender (historyBuffers (loop s')))
                      <= length (hgender (historyBuffers (loop x))))%nat
                  /\ (length (age (historyBuffers (loop s')))
                      <= length (age (historyBuffers (loop x))))%nat));
        [|now repeat split].
      intros x (He & Hg & Ha). rewrite callback_loop.
      destruct (detectionLoop_grows (seen x h) (loop x)) as (He' & Hg' & Ha').
      repeat split; lia. }
  destruct Hstep as (He & Hg & Ha). repeat split; lia.
Qed.

Lemma setActive_false_id (st : State) :
  detectionActive st = false -> setActive false st = st.
Proof. destruct st as [a h d]. simpl. now intros ->. Qed.

Lemma detectionLoop_inactive (frame : option Human) (st : State) :
  detectionActive st = false -> detectionLoop config frame st = st.
Proof. intros Ha. unfold detectionLoop. now rewrite Ha. Qed.

(** X17. Only a start timer sets the loop going. On a session whose loop is
    not running, as after [stopDetection] or [stopCamera], no sequence of
    frames and of start and stop clicks changes the loop's state as long as
    no start timer fires: the buffers stay, and so does the face data last
    shown, which stopping does not clear. *)
Theorem only_a_timer_activates (events : list Event) (s : Session) :
  detectionActive (loop s) = false ->
  StartTimer ∉ events ->
  loop (handleAll config events s) = loop s.
Proof.
  intros Ha. induction events as [|e events IH] using rev_ind; [reflexivity|].
  intros Hnot. rewrite handleAll_snoc.
  assert (IH' : loop (handleAll config events s) = loop s).
  { apply IH. intros Hin. apply Hnot. apply elem_of_app. now left. }
  set (s' := handleAll config events s) in *.
  assert (Ha' : detectionActive (loop s') = false) by now rewrite IH'.
  rewrite <- IH'. destruct e as [thrown| | | |h]; cbn [handle].
  - apply startDetection_loop.
  - cbn [stopDetection loop]. now apply setActive_false_id.
  - cbn [stopCamera loop]. now apply setActive_false_id.
  - destruct Hnot. apply elem_of_app. right. left.
  - now rewrite frame_inactive.
Qed.

(** X18. A session that is not ready, because the model is not loaded or a
    ref is unset, never detects: with no timer pending and the loop not
    running, no sequence of events arms a timer, sets the loop going or
    marks the session as detecting, and the loop's state stays as it is. *)
Theorem unready_session_never_detects (events : list Event) (s : Session) :
  ready s = false ->
  pendingStart s = 0%nat ->
  detectionActive (loop s) = false ->
  isDetecting s = false ->
  let s' := handleAll config events s in
  pendingStart s' = 0%nat /\ isDetecting s' = false /\ loop s' = loop s.
Proof.
  intros Hr Hp Ha Hd s'. subst s'.
  enough (H : ready (handleAll config events s) = false
              /\ pendingStart (handleAll config events s) = 0%nat
              /\ isDetecting (handleAll config events s) = false
              /\ loop (handleAll config events s) = loop s)
    by (destruct H as (_ & ? & ? & ?); now repeat split).
  apply (handleAll_invariant
           (fun x => ready x = false /\ pendingStart x = 0%nat
                     /\ isDetecting x = false /\ loop x = loop s));
    [|now repeat split].
  clear events. intros x e (Hrx & Hpx & Hdx & Hlx).
  assert (Hax : detectionActive (loop x) = false) by now rewrite Hlx.
  destruct e as [thrown| | | |h]; cbn [handle].
  - destruct x as [lp hr vr so ml det msg pend qd]. unfold ready in *.
    cbn [humanRef videoRef isModelLoaded pendingStart isDetecting loop] in *. subst pend.
    unfold startDetection. cbn [humanRef videoRef isModelLoaded].
    destruct hr, vr, ml; try discriminate; cbn [negb orb]; now repeat split.
  - destruct x as [lp hr vr so ml det msg pend qd]. unfold ready in *.
    cbn [stopDetection humanRef videoRef isModelLoaded pendingStart isDetecting loop] in *.
    repeat split; try assumption. now rewrite setActive_false_id.
  - destruct x as [lp hr vr so ml det msg pend qd]. unfold ready in *.
    cbn [stopCamera humanRef videoRef isModelLoaded pendingStart isDetecting loop] in *.
    repeat split; try assumption. now rewrite setActive_false_id.
  - unfold startTimer. rewrite Hpx. now repeat split.
  - rewrite frame_inactive by assumption.
    destruct x as [lp hr vr so ml det msg pend qd]. now repeat split.
Qed.

(** X19. Stopping does not cancel a start that is under way. On a ready
    session, a start click followed by [stopDetection] or [stopCamera] and
    then the start timer leaves the loop running while the session is not
    marked as detecting; the loop's buffers and face data are those from
    before the click. *)
Theorem stop_does_not_cancel_pending_start (s : Session) :
  ready s = true ->
  let viaStop := handleAll config [StartDetection None; StopDetection; StartTimer] s in
  let viaCamera := handleAll config [StartDetection None; StopCamera; StartTimer] s in
  (detectionActive (loop viaStop) = true /\ isDetecting viaStop = false
   /\ historyBuffers (loop viaStop) = historyBuffers (loop s)
   /\ faceData (loop viaStop) = faceData (loop s))
  /\ (detectionActive (loop viaCamera) = true /\ isDetecting viaCamera = false
      /\ historyBuffers (loop viaCamera) = historyBuffers (loop s)
      /\ faceData (loop viaCamera) = faceData (loop s)).
Proof.
  intros Hr. unfold ready in Hr.
  destruct (humanRef s) eqn:Hh, (videoRef s) eqn:Hv, (isModelLoaded s) eqn:Hm;
    try discriminate.
  cbn [handleAll fold_left handle]. unfold startDetection. rewrite Hh, Hv, Hm.
  cbn [negb orb]. split; repeat split.
Qed.

(** Sessions that are alike stay so over a frame, and over any number of
    frames. *)
Lemma callback_alike (h : Human) (s1 s2 : Session) :
  alike s1 s2 -> alike (callback config h s1) (callback config h s2).
Proof.
  intros (Hl & Hh & Hq). unfold alike, callback. rewrite <- Hl, <- Hh, <- Hq.
  destruct (detectionActive (loop s1) && humanRef s1); now repeat split.
Qed.

Lemma frame_alike (h : Human) (s1 s2 : Session) :
  alike s1 s2 -> alike (frame config h s1) (frame config h s2).
Proof.
  intros (Hl & Hh & Hq). unfold frame. rewrite <- Hq. clear Hq.
  induction (queued s1) as [|n IH].
  - unfold alike. cbn [Nat.iter nat_rect takeQueue loop humanRef queued].
    split; [exact Hl | split; [exact Hh | reflexivity]].
  - rewrite !Nat.iter_succ. now apply callback_alike.
Qed.

Lemma frames_alike (hs : list Human) (s1 s2 : Session) :
  alike s1 s2 ->
  alike (handleAll config (Frame <$> hs) s1) (handleAll config (Frame <$> hs) s2).
Proof.
  intros Ha. induction hs as [|h hs IH] using rev_ind; [exact Ha|].
  rewrite !fmap_app. cbn [fmap list_fmap]. rewrite !handleAll_snoc.
  cbn [handle]. now apply frame_alike.
Qed.

(** X20. A stop and start cycle with a frame in it is invisible to the
    history. On a ready session whose loop is running, with one call of the
    loop queued: stopping, an animation frame (which drops the queued
    call), starting again and letting the start timer fire leaves the state
    of the loop as it was and one call queued, so the frames that follow
    extend the buffers accumulated before the stop: the loop ends in the
    state it reaches on the same frames without the cycle. Without a frame
    between the stop and the timer the call queued before the stop is still
    there when the timer queues another, and two calls are queued. *)
Theorem restart_keeps_history (h0 : Human) (hs : list Human) (s : Session) :
  ready s = true ->
  detectionActive (loop s) = true ->
  queued s = 1%nat ->
  loop (handleAll config
          ([StopDetection; Frame h0; StartDetection None; StartTimer] ++ (Frame <$> hs)) s)
  = loop (handleAll config (Frame <$> hs) s)
  /\ queued (handleAll config [StopDetection; Frame h0; StartDetection None; StartTimer] s)
     = 1%nat
  /\ queued (handleAll config [StopDetection; StartDetection None; StartTimer] s) = 2%nat.
Proof.
  intros Hr Ha Hq. destruct s as [lp hr vr so ml det msg pend qd]. unfold ready in Hr.
  cbn [humanRef videoRef isModelLoaded loop queued] in Hr, Ha, Hq. subst qd.
  destruct hr, vr, ml; try discriminate.
  assert (Hcycle :
    alike
      (handleAll config [StopDetection; Frame h0; StartDetection None; StartTimer]
         {| loop := lp; humanRef := true; videoRef := true; srcObject := so;
            isModelLoaded := true; isDetecting := det; statusMsg := msg;
            pendingStart := pend; queued := 1 |})
      {| loop := lp; humanRef := true; videoRef := true; srcObject := so;
         isModelLoaded := true; isDetecting := det; statusMsg := msg;
         pendingStart := pend; queued := 1 |}).
  { destruct lp as [active buffers shown]. cbn [detectionActive] in Ha. subst active.
    unfold alike. split; [reflexivity | split; reflexivity]. }
  split; [|split].
  - unfold handleAll at 1. rewrite fold_left_app.
    change (fold_left (handle config) (Frame <$> hs)) with (handleAll config (Frame <$> hs)).
    apply (frames_alike hs _ _ Hcycle).
  - apply Hcycle.
  - reflexivity.
Qed.

End Controls.

(** ** The properties above at sample inputs *)

Lemma run_keeps_buffers_bounded_witness :
  bounded DEFAULT_CONFIG
    (historyBuffers
       (run DEFAULT_CONFIG [withFaces [Sample.threeCandidates]; noFace; withFaces [Sample.aged]]
          Sample.warm)).
Proof.
  apply (proj1 (run_keeps_buffers_bounded DEFAULT_CONFIG
                  [withFaces [Sample.threeCandidates]; noFace; withFaces [Sample.aged]]
                  Sample.warm ltac:(simpl; lia) ltac:(unfold bounded; simpl; lia))).
Defined.

Lemma gender_shown_with_score_witness :
  Forall (acceptedGender DEFAULT_CONFIG)
    (hgender (historyBuffers (run DEFAULT_CONFIG [withFaces [Sample.aged]] Sample.warm)))
  /\ forall d,
       faceData (run DEFAULT_CONFIG [withFaces [Sample.aged]] Sample.warm) = Some d ->
       genderShown d.
Proof.
  apply (gender_shown_with_score DEFAULT_CONFIG [withFaces [Sample.aged]] Sample.warm
           ltac:(repeat constructor; discriminate)
           ltac:(intros d; discriminate)).
Defined.

Lemma emotion_history_above_threshold_witness :
  Forall (acceptedEmotion DEFAULT_CONFIG)
    (emotion (historyBuffers
                (run DEFAULT_CONFIG [withFaces [Sample.threeCandidates]] Sample.warm))).
Proof.
  apply (proj1 (emotion_history_above_threshold DEFAULT_CONFIG
                  [withFaces [Sample.threeCandidates]] Sample.warm
                  ltac:(reflexivity)
                  ltac:(repeat constructor; eexists; split; reflexivity))).
Defined.

Lemma age_shown_is_mean_of_last_ages_witness :
  age (historyBuffers
         (run DEFAULT_CONFIG [withFaces [Sample.aged]; noFace]
            (Sample.session createHistoryBuffers)))
  = last_n (Z.to_nat (windowSize DEFAULT_CONFIG))
      (agesOf [withFaces [Sample.aged]; noFace]).
Proof.
  apply (proj1 (age_shown_is_mean_of_last_ages DEFAULT_CONFIG
                  [withFaces [Sample.aged]; noFace]
                  (Sample.session createHistoryBuffers)
                  ltac:(simpl; lia) eq_refl eq_refl)).
Defined.

(** Under a window of two, ages of 20.2 and 20.9 are shown as 20.5: their
    binary64 mean times 10 is 205.49999999999997. *)
Example age_shown_over_two_frames :
  let young (a : number) : FaceResult :=
    {| f_emotion := None; f_gender := None; f_genderScore := None; f_age := Some a;
       f_score := Undefined; f_faceScore := Undefined; f_distance := None;
       f_real := None; f_live := None; f_box := None; f_size := None |} in
  d_age <$> faceData
              (run Sample.twoFrames [withFaces [young 20.2%float]; withFaces [young 20.9%float]]
                 (Sample.session createHistoryBuffers))
  = Some (Some 20.5%float).
Proof. vm_compute. reflexivity. Qed.

Lemma window_of_one_shows_latest_witness :
  d_age <$> faceData (detectionLoop DEFAULT_CONFIG (withFaces [Sample.aged]) Sample.warm)
  = Some (Some (round ((0 + 40) * 10) / 10)%float).
Proof.
  apply (proj1 (window_of_one_shows_latest DEFAULT_CONFIG Sample.warm Sample.aged []
                  eq_refl eq_refl ltac:(unfold bounded; simpl; lia)) 40%float eq_refl).
Defined.

(** Under the default window of one frame a gender confidence of 0.565 is
    shown as 56, and one of 0.305 as 31. *)
Example window_of_one_gender_scores :
  genderScore <$> faceData
    (detectionLoop DEFAULT_CONFIG
       (withFaces [Sample.bareFace None (Some "male"%string) (Some 0.565%float)]) Sample.warm)
  = Some (Some 56%float)
  /\ genderScore <$> faceData
       (detectionLoop DEFAULT_CONFIG
          (withFaces [Sample.bareFace None (Some "male"%string) (Some 0.305%float)]) Sample.warm)
     = Some (Some 31%float).
Proof. split; vm_compute; reflexivity. Qed.

Lemma nonpositive_window_shows_nothing_witness :
  historyBuffers
    (run {| windowSize := 0; minConfidence := 0.3%float |}
       [withFaces [Sample.aged]; withFaces [Sample.threeCandidates]]
       (Sample.session createHistoryBuffers))
  = createHistoryBuffers.
Proof.
  apply (proj1 (nonpositive_window_shows_nothing
                  {| windowSize := 0; minConfidence := 0.3%float |}
                  [withFaces [Sample.aged]; withFaces [Sample.threeCandidates]]
                  (Sample.session createHistoryBuffers)
                  ltac:(simpl; lia) eq_refl ltac:(intros d; discriminate))).
Defined.

Lemma only_a_timer_activates_witness :
  loop (handleAll DEFAULT_CONFIG
          [Frame (Sample.sees [Sample.aged]); StartDetection None;
           Frame (Sample.sees [Sample.threeCandidates])]
          (stopDetection Sample.detecting))
  = loop (stopDetection Sample.detecting).
Proof.
  apply (only_a_timer_activates DEFAULT_CONFIG
           [Frame (Sample.sees [Sample.aged]); StartDetection None;
            Frame (Sample.sees [Sample.threeCandidates])]
           (stopDetection Sample.detecting) eq_refl).
  intros H. repeat (apply elem_of_cons in H as [H|H]; [discriminate|]).
  now apply elem_of_nil in H.
Defined.

Lemma unready_session_never_detects_witness :
  pendingStart (handleAll DEFAULT_CONFIG
                  [StartDetection None; StartTimer; Frame (Sample.sees [Sample.aged])]
                  Sample.loading) = 0%nat
  /\ isDetecting (handleAll DEFAULT_CONFIG
                    [StartDetection None; StartTimer; Frame (Sample.sees [Sample.aged])]
                    Sample.loading) = false
  /\ loop (handleAll DEFAULT_CONFIG
             [StartDetection None; StartTimer; Frame (Sample.sees [Sample.aged])]
             Sample.loading) = loop Sample.loading.
Proof.
  apply (unready_session_never_detects DEFAULT_CONFIG
           [StartDetection None; StartTimer; Frame (Sample.sees [Sample.aged])]
           Sample.loading eq_refl eq_refl eq_refl eq_refl).
Defined.

Lemma stop_does_not_cancel_pending_start_witness :
  detectionActive
    (loop (handleAll DEFAULT_CONFIG [StartDetection None; StopDetection; StartTimer]
             Sample.idle)) = true
  /\ isDetecting
       (handleAll DEFAULT_CONFIG [StartDetection None; StopDetection; StartTimer]
          Sample.idle) = false.
Proof.
  pose proof (proj1 (stop_does_not_cancel_pending_start DEFAULT_CONFIG Sample.idle eq_refl))
    as H.
  split; [exact (proj1 H) | exact (proj1 (proj2 H))].
Defined.

Lemma restart_keeps_history_witness :
  loop (handleAll DEFAULT_CONFIG
          ([StopDetection; Frame (Sample.sees []); StartDetection None; StartTimer]
           ++ (Frame <$> [Sample.sees [Sample.aged]]))
          Sample.detecting)
  = loop (handleAll DEFAULT_CONFIG (Frame <$> [Sample.sees [Sample.aged]]) Sample.detecting).
Proof.
  apply (proj1 (restart_keeps_history DEFAULT_CONFIG (Sample.sees [])
                  [Sample.sees [Sample.aged]] Sample.detecting eq_refl eq_refl eq_refl)).
Defined.

(** A start that is stopped before its timer fires: the loop then runs and
    takes the next frame into the buffers while the session shows as not
    detecting. *)
Example stopped_session_still_detects :
  age (historyBuffers
         (loop (handleAll DEFAULT_CONFIG
                  [StartDetection None; StopDetection; StartTimer;
                   Frame (Sample.sees [Sample.aged])]
                  Sample.idle)))
  = [40%float]
  /\ isDetecting
       (handleAll DEFAULT_CONFIG
          [StartDetection None; StopDetection; StartTimer;
           Frame (Sample.sees [Sample.aged])]
          Sample.idle) = false.
Proof. split; vm_compute; reflexivity. Qed.

(** A restart with no animation frame between the stop and the start timer:
    two calls of the loop are queued, and the next frame is taken into the
    buffers twice. *)
Example restart_without_frame_doubles_the_loop :
  age (historyBuffers
         (loop (handleAll Sample.twoFrames
                  [StopDetection; StartDetection None; StartTimer;
                   Frame (Sample.sees [Sample.aged])]
                  Sample.detecting)))
  = [40%float; 40%float]
  /\ age (historyBuffers
            (loop (handleAll Sample.twoFrames [Frame (Sample.sees [Sample.aged])]
                     Sample.detecting)))
     = [30%float; 40%float].
Proof. split; vm_compute; reflexivity. Qed.

(** ** The window from any starting buffer *)

(** X21. A run of pushes on any buffer, under any limit, is a sliding window
    over the old items followed by the new ones; its size is the limit, or
    the length of the starting buffer when that is larger. A buffer that is
    longer than the limit, as after the window was made smaller, is never
    trimmed back to it. *)
Theorem pushAll_slides_from_any_buffer {T : Type} (limit : Z) (arr items : list T) :
  pushAll limit arr items
  = last_n (Nat.max (length arr) (Z.to_nat limit)) (arr ++ items).
Proof.
  unfold last_n. induction items as [|x items IH] using rev_ind.
  - rewrite app_nil_r. cbn [pushAll fold_left].
    replace (length arr - Nat.max (length arr) (Z.to_nat limit))%nat with 0%nat by lia.
    now rewrite drop_0.
  - rewrite pushAll_snoc, IH, app_assoc. unfold pushWithLimit.
    set (l := arr ++ items) in *.
    assert (Hl : (length arr <= length l)%nat) by (subst l; rewrite length_app; lia).
    set (M := Nat.max (length arr) (Z.to_nat limit)) in *.
    rewrite !length_app, length_drop. cbn [length].
    destruct (Z.gtb_spec (Z.of_nat (length l - (length l - M) + 1)) limit) as [Hgt|Hle].
    + destruct (decide (M = 0%nat)) as [HM|HM].
      * rewrite HM, !Nat.sub_0_r.
        rewrite drop_all, (drop_ge (l ++ [x])) by (rewrite length_app; simpl; lia).
        reflexivity.
      * assert (Hm : (length l - M < length l)%nat) by lia.
        rewrite (tail_drop_snoc _ _ _ Hm). f_equal. lia.
    + rewrite drop_app_le by lia. f_equal. f_equal. lia.
Qed.
